(** * gockpit: State, StateMutation, Metric and Supervisor

    A shallow embedding of [state.go] and [supervisor.go].  Go maps are
    finite maps ([gmap]) wrapped in [option] so that the nil map and the
    allocated empty map stay distinct, pointer-shared objects are threaded
    explicitly, and everything the sampling loop does to the outside world
    (probe, listener, sink and logger calls) is recorded in a trace. *)

From Stdlib Require Import ZArith PrimFloat Ascii.
From stdpp Require Import gmap strings list fin_maps pretty.

Open Scope Z_scope.

(** ** Dynamically typed values ([interface{}])

    The scalar types the typed accessors of [State] know about.  Integer
    payloads are kept as [Z]; the conversions [int(i)] in [State.Int] only
    widen, so they are the identity on the payload.  [float32] values are
    kept as the binary64 number they denote, which makes [float64(i)] the
    identity as well. *)
Inductive value :=
  | VNil
  | VInt (i : Z)
  | VInt8 (i : Z)
  | VInt32 (i : Z)
  | VInt64 (i : Z)
  | VFloat32 (f : float)
  | VFloat64 (f : float)
  | VBool (b : bool)
  | VString (s : string).

(** Go's [==] on two interface values: equal dynamic types and equal
    payloads; floating point payloads are compared the IEEE way. *)
Definition iface_eq (a b : value) : bool :=
  match a, b with
  | VNil, VNil => true
  | VInt x, VInt y => Z.eqb x y
  | VInt8 x, VInt8 y => Z.eqb x y
  | VInt32 x, VInt32 y => Z.eqb x y
  | VInt64 x, VInt64 y => Z.eqb x y
  | VFloat32 x, VFloat32 y => PrimFloat.eqb x y
  | VFloat64 x, VFloat64 y => PrimFloat.eqb x y
  | VBool x, VBool y => Bool.eqb x y
  | VString x, VString y => String.eqb x y
  | _, _ => false
  end.

(** What a call returns: a value, or the panic it raised. *)
Inductive result (A : Type) :=
  | Ok (a : A)
  | Panic (v : value) (msg : string).
Arguments Ok {A} a.
Arguments Panic {A} v msg.

(** ** Go maps *)

(** A map variable is nil ([None]) or points to an allocated table. *)
Abbreviation gomap V := (option (gmap string V)).

(** [m[k]] with the comma-ok form: reading a nil map finds nothing. *)
Definition index {V} (m : gomap V) (k : string) : option V :=
  match m with
  | None => None
  | Some t => t !! k
  end.

(** [len(m)]; the length of a nil map is zero. *)
Definition len {V} (m : gomap V) : nat :=
  match m with
  | None => 0%nat
  | Some t => size t
  end.

(** The table behind a map that the code has just made sure is allocated. *)
Definition table {V} (m : gomap V) : gmap string V :=
  match m with
  | None => ∅
  | Some t => t
  end.

(** ** JSON documents, as [encoding/json] builds them *)
#[local] Set Warnings "-register-all".
Inductive json :=
  | JNull
  | JBool (b : bool)
  | JInt (i : Z)
  | JFloat (f : float)
  | JString (s : string)
  | JObject (members : list (string * json)).

(** [json.Marshal] on a scalar; NaN and the infinities are unsupported
    values and make the whole call fail. *)
Definition marshal_float (f : float) : option json :=
  if (PrimFloat.is_nan f || PrimFloat.is_infinity f)%bool then None
  else Some (JFloat f).

Definition marshal_value (v : value) : option json :=
  match v with
  | VNil => Some JNull
  | VInt i | VInt8 i | VInt32 i | VInt64 i => Some (JInt i)
  | VFloat32 f | VFloat64 f => marshal_float f
  | VBool b => Some (JBool b)
  | VString s => Some (JString s)
  end.

(** [json.Marshal] on a map: [null] for the nil map, otherwise an object
    with one member per key (members are listed in the table's key order). *)
Definition marshal_map {V} (enc : V → option json) (m : gomap V) : option json :=
  match m with
  | None => Some JNull
  | Some t =>
      JObject <$> mapM (λ kv, pair kv.1 <$> enc kv.2) (map_to_list t)
  end.

(** The member names of an object. *)
Definition member_names (j : json) : list string :=
  match j with
  | JObject ms => ms.*1
  | _ => []
  end.

(** Lookup of a member by name. *)
Definition member (name : string) (j : json) : option json :=
  match j with
  | JObject ms => (λ r, r.2.2) <$> list_find (λ kv, kv.1 = name) ms
  | _ => None
  end.

(** ** What the package gets from outside *)

(** Modelled from the spec: the entry type of the [Errors] collection is
    not part of the sources.  The code reads its field [Err] (here
    [Error_Err], the name [Err] being taken by the method of [State]), the
    error that was recorded; a missing key reads as the zero entry, whose
    [Err] is nil. *)
Record Error (error : Type) := { Error_Err : option error }.
Arguments Error_Err {error} _.
Arguments Build_Error {error} _.

(** The types and functions the two files use and do not define. *)
Class Collaborators := {
  (** Go [error] values, compared by [==]. *)
  error : Type;
  error_eq_dec :: EqDecision error;
  (** An entry of [Errors] handed around as an [error] value, as
      [Supervisor.Run] does with the result of [getError]. *)
  Error_as_error : Error error → error;
  (** The alert evaluator bound to a key, and its [update] hook. *)
  Alert : Type;
  alert_update : value → Alert → Alert;
  (** Listener callbacks are opaque; a call is recorded in the trace. *)
  Listener : Type;
  (** [strconv.FormatFloat] *)
  FormatFloat : float → ascii → Z → Z → string;
  (** How [encoding/json] renders an entry of [Errors] and an alert. *)
  marshal_Error : Error error → option json;
  marshal_Alert : Alert → option json
}.

Section Gockpit.

Context `{Collaborators}.

(** ** The error table *)

(** Modelled from the spec: [Errors.Collect] is not part of the sources;
    it records the error under the code, replacing any prior error kept
    under that code. *)
Definition Collect (e : gmap string (Error error)) (code : string) (err : error)
  : gmap string (Error error) :=
  <[code := {| Error_Err := Some err |}]> e.

(** [e[key].Err] *)
Definition index_Err (e : gomap (Error error)) (key : string) : option error :=
  match index e key with
  | Some entry => Error_Err entry
  | None => None
  end.

(** ** State *)
Record State := {
  data : gomap value;
  errors : gomap (Error error);
  alerts : gomap Alert
}.

(** [if s.data == nil { s.data = make(map[string]interface{}) }] *)
Definition make_data (s : State) : State :=
  match data s with
  | None => {| data := Some ∅; errors := errors s; alerts := alerts s |}
  | Some _ => s
  end.

(** [if s.errors == nil { s.errors = make(Errors) }] *)
Definition make_errors (s : State) : State :=
  match errors s with
  | None => {| data := data s; errors := Some ∅; alerts := alerts s |}
  | Some _ => s
  end.

(** [s.data[key]]: a missing key and a nil map both read as nil. *)
Definition elem (s : State) (key : string) : value :=
  default VNil (index (data s) key).

(** [for key, val := range other { d[key] = val }] *)
Definition merge (d other : gmap string value) : gmap string value :=
  map_fold (λ key val acc, <[key := val]> acc) d other.

Definition apply (s other : State) : State :=
  let s := make_data s in
  let d := merge (table (data s)) (table (data other)) in
  {| data := Some d;
     errors := errors s;
     alerts :=
       match alerts s with
       | None => None
       | Some al =>
           Some (map_imap
                   (λ key a, Some (alert_update (default VNil (d !! key)) a)) al)
       end |}.

Definition set (s : State) (key : string) (val : value) : State :=
  let s := make_data s in
  {| data := Some (<[key := val]> (table (data s)));
     errors := errors s;
     alerts := alerts s |}.

(** The typed accessors allocate the table of a State that has none, so
    they return the State as they leave it next to their result. *)
Definition Int (s : State) (name : string) : State * result Z :=
  let s := make_data s in
  (s, match elem s name with
      | VNil => Ok 0
      | VInt i => Ok i
      | VInt32 i => Ok i
      | VInt8 i => Ok i
      | VInt64 i => Ok i
      | v => Panic v " is not of integer type"
      end).

Definition Float (s : State) (name : string) : State * result float :=
  let s := make_data s in
  (s, match elem s name with
      | VNil => Ok 0%float
      | VFloat32 f => Ok f
      | VFloat64 f => Ok f
      | v => Panic v " is not of float type"
      end).

Definition Elem (s : State) (name : string) : State * value :=
  let s := make_data s in
  (s, elem s name).

Definition Bool (s : State) (name : string) : State * result bool :=
  let s := make_data s in
  (s, match elem s name with
      | VNil => Ok false
      | VBool b => Ok b
      | v => Panic v " is not of boolean type"
      end).

(** [strconv.FormatBool] *)
Definition FormatBool (b : bool) : string :=
  if b then "true" else "false".

Definition String (s : State) (name : string) : State * result string :=
  let s := make_data s in
  (s, Ok match elem s name with
         | VNil => ""
         | VString x => x
         | VFloat64 f => FormatFloat f "g"%char 2 64
         | VFloat32 f => FormatFloat f "g"%char 2 32
         | VInt i => pretty i
         | VInt64 i => pretty i
         | VBool b => FormatBool b
         | VInt8 i | VInt32 i => pretty i
         end).

Definition HasErrors (s : State) : bool :=
  bool_decide (0 < len (errors s))%nat.

(** [Err] returns the entry kept for the name, nil when there is none. *)
Definition Err (s : State) (name : string) : option (Error error) :=
  match errors s with
  | None => None
  | Some e => e !! name
  end.

Definition setError (s : State) (code : string) (err : option error) : State :=
  let s := make_errors s in
  let e := table (errors s) in
  match err with
  | None =>
      {| data := data s;
         errors := Some (match e !! code with
                         | Some _ => delete code e
                         | None => e
                         end);
         alerts := alerts s |}
  | Some x =>
      {| data := data s; errors := Some (Collect e code x); alerts := alerts s |}
  end.

Definition clearError (s : State) (code : string) : State :=
  let s := make_errors s in
  let e := table (errors s) in
  {| data := data s;
     errors := Some (match e !! code with
                     | Some _ => delete code e
                     | None => e
                     end);
     alerts := alerts s |}.

Definition getError (s : State) (code : string) : option (Error error) :=
  index (errors s) code.

(** [MarshalJSON]: the three fields of the anonymous struct in declaration
    order, each under the name of its [json] tag; a field tagged
    [omitempty] is left out when its map has length zero.  [None] is a
    failed [json.Marshal]. *)
Definition omitempty {V} (name : string) (enc : V → option json) (m : gomap V)
  : option (list (string * json)) :=
  if bool_decide (len m = 0%nat) then Some []
  else (λ j, [(name, j)]) <$> marshal_map enc m.

Definition MarshalJSON (s : State) : option json :=
  st ← marshal_map marshal_value (data s);
  er ← omitempty "errors" marshal_Error (errors s);
  al ← omitempty "alerts" marshal_Alert (alerts s);
  Some (JObject ([("state", st)] ++ er ++ al)).

(** ** StateMutation *)

(** [state] is the live State the mutation points to, [mutation] the
    staging State it owns.  Whatever a method does to the live State
    through the pointer shows in the [state] field of its result. *)
Record StateMutation := {
  state : State;
  mutation : State;
  dirty : bool
}.

Definition With (s : State) : StateMutation :=
  {| state := s;
     mutation := {| data := None; errors := None; alerts := None |};
     dirty := false |}.

(** [StateMutation.Set] ([Set] is a reserved word here). *)
Definition Set_ (m : StateMutation) (key : string) (val : value) : StateMutation :=
  if iface_eq (elem (state m) key) val then m
  else {| state := state m; mutation := set (mutation m) key val; dirty := true |}.

Definition SetError (m : StateMutation) (key : string) (err : option error)
  : StateMutation :=
  let m := {| state := make_errors (state m);
              mutation := mutation m;
              dirty := dirty m |} in
  if bool_decide (err = index_Err (errors (state m)) key) then m
  else {| state := state m;
          mutation := setError (mutation m) key err;
          dirty := true |}.

Definition Apply (m : StateMutation) : StateMutation :=
  {| state := apply (state m) (mutation m);
     mutation := mutation m;
     dirty := dirty m |}.

(** ** Time

    An instant is the number of nanoseconds since the zero [time.Time], a
    duration a number of nanoseconds. *)
Definition Add (t : Z) (d : Z) : Z := t + d.
Definition After (t u : Z) : bool := u <? t.

(** [time.Second] *)
Definition Second : Z := 1000000000.
Definition defaultSamplingInterval : Z := Second.

(** ** Probes

    A probe is foreign code; what it can do to the mutation it is handed is
    call [Set] and [SetError] on it.  Its behaviour is the sequence of calls
    it makes when it is invoked during the tick of a given instant. *)
Inductive call :=
  | CallSet (key : string) (val : value)
  | CallSetError (key : string) (err : option error).

Definition do_call (m : StateMutation) (c : call) : StateMutation :=
  match c with
  | CallSet key val => Set_ m key val
  | CallSetError key err => SetError m key err
  end.

Definition do_calls (m : StateMutation) (cs : list call) : StateMutation :=
  foldl do_call m cs.

(** The dynamic type of the [probe interface{}] argument. *)
Inductive probe_value :=
  | IsProbe (UpdateState : Z → list call)
  | IsProbeFunc (f : Z → list call)
  | NotAProbe.

(** ** What the loop does to the outside world *)
Inductive event :=
  | CallProbe (name : string)
  | CallListener (l : Listener) (s : State)
  | CallSave (bucket name : string) (fields : gomap value) (tags : gomap string)
  | LogError (err : error) (msg : string).

(** [Writer]: the result of [Save] is the error it returns. *)
Record Writer := {
  Save : string → string → gomap value → gomap string → option error
}.

(** ** Metric *)
Record Metric := {
  name : string;
  interval : Z;
  lastUpdate : Z;
  probe : probe_value
}.

Definition NewMetric (name : string) (interval : Z) (probe : probe_value)
  : result Metric :=
  match probe with
  | IsProbe _ | IsProbeFunc _ =>
      Ok {| name := name; probe := probe; interval := interval; lastUpdate := 0 |}
  | NotAProbe => Panic VNil "invalid metric probe"
  end.

Definition updateState (mg : Metric) (now : Z) (mutation : StateMutation)
  : StateMutation * list event :=
  if negb (After now (Add (lastUpdate mg) (interval mg))) then (mutation, [])
  else match probe mg with
       | IsProbe p => (do_calls mutation (p now), [CallProbe (name mg)])
       | IsProbeFunc p => (do_calls mutation (p now), [CallProbe (name mg)])
       | NotAProbe => (mutation, [])
       end.

(** ** Supervisor

    [s_state] and [s_name] are the fields [state] and [name]. *)
Record Supervisor := {
  metrics : gmap string Metric;
  s_state : State;
  listeners : list Listener;
  store : option Writer;
  s_name : string;
  samplingInterval : Z;
  cancel : option unit
}.

Definition WithStore (w : Writer) (s : Supervisor) : Supervisor :=
  {| metrics := metrics s; s_state := s_state s; listeners := listeners s;
     store := Some w; s_name := s_name s;
     samplingInterval := samplingInterval s; cancel := cancel s |}.

Definition WithSamplingInterval (i : Z) (s : Supervisor) : Supervisor :=
  {| metrics := metrics s; s_state := s_state s; listeners := listeners s;
     store := store s; s_name := s_name s;
     samplingInterval := i; cancel := cancel s |}.

Definition NewSupervisor (name : string) (opts : list (Supervisor → Supervisor))
  : Supervisor :=
  let s := {| metrics := ∅;
              s_state := {| data := Some ∅; errors := None; alerts := None |};
              listeners := []; store := None; s_name := name;
              samplingInterval := 0; cancel := None |} in
  let s := foldl (λ s o, o s) s opts in
  if samplingInterval s =? 0 then WithSamplingInterval defaultSamplingInterval s
  else s.

Definition GetState (s : Supervisor) : State := s_state s.

Definition Errors (s : Supervisor) : gomap (Error error) := errors (s_state s).

Definition with_metrics (s : Supervisor) (ms : gmap string Metric) : Supervisor :=
  {| metrics := ms; s_state := s_state s; listeners := listeners s;
     store := store s; s_name := s_name s;
     samplingInterval := samplingInterval s; cancel := cancel s |}.

Definition with_state (s : Supervisor) (st : State) : Supervisor :=
  {| metrics := metrics s; s_state := st; listeners := listeners s;
     store := store s; s_name := s_name s;
     samplingInterval := samplingInterval s; cancel := cancel s |}.

Definition AddProbe (s : Supervisor) (name : string) (interval : Z)
    (p : probe_value) : result Supervisor :=
  match NewMetric name interval p with
  | Ok mg => Ok (with_metrics s (<[name := mg]> (metrics s)))
  | Panic v msg => Panic v msg
  end.

Definition AddAlert (s : Supervisor) (ID : string) (a : Alert) : Supervisor :=
  let st := s_state s in
  with_state s {| data := data st; errors := errors st;
                  alerts := Some (<[ID := a]> (table (alerts st))) |}.

Definition AddListener (s : Supervisor) (l : Listener) : Supervisor :=
  {| metrics := metrics s; s_state := s_state s;
     listeners := listeners s ++ [l];
     store := store s; s_name := s_name s;
     samplingInterval := samplingInterval s; cancel := cancel s |}.


(** *** One tick of [Run] *)

(** The body of [for _, mg := range s.metrics].  The accumulator is the
    tick's mutation, the metrics (a [lastUpdate] is written through the
    pointer kept in the map) and the calls made so far. *)
Definition visit (now : Z) (key : string) (mg : Metric)
    (acc : StateMutation * gmap string Metric * list event)
  : StateMutation * gmap string Metric * list event :=
  let '(mutation, ms, tr) := acc in
  if After now (Add (lastUpdate mg) (interval mg)) then
    let '(mutation, evs) := updateState mg now mutation in
    (mutation,
     <[key := {| name := name mg; interval := interval mg;
                 lastUpdate := now; probe := probe mg |}]> ms,
     tr ++ evs)
  else
    (match getError (state mutation) (name mg) with
     | Some err => SetError mutation (name mg) (Some (Error_as_error err))
     | None => mutation
     end, ms, tr).

Definition sample (s : Supervisor) (now : Z)
  : StateMutation * gmap string Metric * list event :=
  map_fold (visit now) (With (s_state s), metrics s, []) (metrics s).

(** [if mutation.dirty { for _, l := range s.listeners { l(s.state) } }] *)
Definition notify (ls : list Listener) (mutation : StateMutation) : list event :=
  if dirty mutation then (λ l, CallListener l (state mutation)) <$> ls else [].

(** [if s.store != nil { ... }] *)
Definition persist (s : Supervisor) : list event :=
  match store s with
  | None => []
  | Some w =>
      CallSave "gockpit" (s_name s) (data (s_state s)) None ::
      match Save w "gockpit" (s_name s) (data (s_state s)) None with
      | Some err => [LogError err "could not save metrics state"]
      | None => []
      end
  end.

Definition tick (s : Supervisor) (now : Z) : Supervisor * list event :=
  let '(mutation, ms, tr) := sample s now in
  let mutation := Apply mutation in
  let s' := with_state (with_metrics s ms) (state mutation) in
  (s', tr ++ notify (listeners s) mutation ++ persist s').

(** *** The loop *)

(** The goroutine started by [Run]: the Supervisor it works on and whether
    the channel [ctx.Done()] has been closed. *)
Record Loop := {
  sup : Supervisor;
  ctx_done : bool
}.

(** [Run] up to the [go] statement; [parent] tells whether the context
    passed in has been cancelled already. *)
Definition Run (s : Supervisor) (parent : bool) : Loop :=
  {| sup := {| metrics := metrics s; s_state := s_state s;
               listeners := listeners s; store := store s; s_name := s_name s;
               samplingInterval := samplingInterval s; cancel := Some () |};
     ctx_done := parent |}.

Definition Stop (l : Loop) : Loop :=
  match cancel (sup l) with
  | None => l
  | Some _ => {| sup := sup l; ctx_done := true |}
  end.

(** The case a [select] runs. *)
Inductive selected :=
  | Tick (now : Z)
  | Done.

(** A case can be picked when its channel is ready: the ticker's whenever a
    tick is pending, [ctx.Done()] once it is closed. *)
Definition ready (l : Loop) (c : selected) : bool :=
  match c with
  | Tick _ => true
  | Done => ctx_done l
  end.

(** How an iteration of [for { select { ... } }] ends. *)
Inductive control :=
  | Continue
  | Return.

Definition iteration (l : Loop) (c : selected) : Loop * list event * control :=
  match c with
  | Tick now =>
      let '(s, tr) := tick (sup l) now in
      ({| sup := s; ctx_done := ctx_done l |}, tr, Continue)
  | Done => (l, [], Continue)
  end.

(** What happens around and in the goroutine, in the order it happens. *)
Inductive step :=
  | Select (c : selected)
  | CallStop.

(** The goroutine under a schedule; it stops at a [Return], and at a
    [select] whose chosen case is not ready (such a schedule is not one of
    the program). *)
Fixpoint goroutine (sched : list step) (l : Loop) : Loop * list event * control :=
  match sched with
  | [] => (l, [], Continue)
  | CallStop :: sched => goroutine sched (Stop l)
  | Select c :: sched =>
      if ready l c then
        match iteration l c with
        | (l, tr, Continue) =>
            let '(l, tr', ctl) := goroutine sched l in (l, tr ++ tr', ctl)
        | (l, tr, Return) => (l, tr, Return)
        end
      else (l, [], Continue)
  end.

(** *** Reading a trace *)

Definition probe_calls (tr : list event) : list string :=
  omap (λ e, match e with CallProbe n => Some n | _ => None end) tr.

Definition listener_calls (tr : list event) : list (Listener * State) :=
  omap (λ e, match e with CallListener l s => Some (l, s) | _ => None end) tr.

Definition save_calls (tr : list event)
  : list (string * string * gomap value * gomap string) :=
  omap (λ e, match e with
             | CallSave b n f t => Some (b, n, f, t)
             | _ => None
             end) tr.

Definition logged (tr : list event) : list (error * string) :=
  omap (λ e, match e with LogError err msg => Some (err, msg) | _ => None end) tr.

(** ** Notions the properties are stated with *)

(** The floating-point values. *)
Definition is_float (v : value) : bool :=
  match v with
  | VFloat32 _ | VFloat64 _ => true
  | _ => false
  end.

(** The Metric a due visit leaves behind. *)
Definition touched (mg : Metric) (now : Z) : Metric :=
  {| name := name mg; interval := interval mg;
     lastUpdate := now; probe := probe mg |}.

(** The Metric a visit leaves behind. *)
Definition visited (now : Z) (mg : Metric) : Metric :=
  if After now (Add (lastUpdate mg) (interval mg)) then touched mg now else mg.

(** Only probes are called while the metrics are visited. *)
Definition probes_only (tr : list event) : Prop :=
  listener_calls tr = [] ∧ save_calls tr = [] ∧ logged tr = [].

(** The range of [time.Duration], a signed 64-bit count of nanoseconds. *)
Definition is_Duration (d : Z) : Prop :=
  -9223372036854775808 ≤ d ≤ 9223372036854775807.

(** 1970-01-01T00:00:00Z, counted from the zero [time.Time]. *)
Definition unixEpoch : Z := 62135596800 * Second.

(** The integer values and the boolean values. *)
Definition is_integer (v : value) : bool :=
  match v with
  | VInt _ | VInt8 _ | VInt32 _ | VInt64 _ => true
  | _ => false
  end.

Definition is_bool (v : value) : bool :=
  match v with
  | VBool _ => true
  | _ => false
  end.

(** A State that holds nothing and has no table allocated, as [&State{}]. *)
Definition zero_State : State :=
  {| data := None; errors := None; alerts := None |}.

(** ** The HTTP side of the Supervisor *)

(** What a handler has written to its [http.ResponseWriter]; the body is
    [None] when nothing was written. *)
Record response := {
  header : list (string * string);
  status : Z;
  body : option json
}.

(** [http.StatusOK] *)
Definition StatusOK : Z := 200.

(** [handlerState]: the error of [Encode] is dropped, and [Encode] writes
    nothing when [MarshalJSON] fails. *)
Definition handlerState (s : Supervisor) : response :=
  {| header := [("Content-Type", "application/json")];
     status := StatusOK;
     body := MarshalJSON (s_state s) |}.

(** [Supervisor.String] *)
Definition Supervisor_String (s : Supervisor) (id : string)
  : Supervisor * result string :=
  let '(st, r) := String (s_state s) id in (with_state s st, r).

End Gockpit.

(** * A worked instance

    Errors are told apart by their message, a Listener by its name; alerts
    carry nothing. *)

Definition entry_message (e : Error string) : string :=
  default "" (Error_Err e).

Definition instance : Collaborators := {|
  error := string;
  Error_as_error := entry_message;
  Alert := unit;
  alert_update := λ _ a, a;
  Listener := string;
  FormatFloat := λ _ _ _ _, "";
  marshal_Error := λ e, Some (JString (entry_message e));
  marshal_Alert := λ _, Some JNull
|}.

(** The State of a new Supervisor. *)
Definition fresh : @State instance :=
  s_state (NewSupervisor "cockpit" []).

(** A live State that holds 42 under "temp". *)
Definition live42 : @State instance :=
  {| data := Some {["temp" := VInt 42]}; errors := None; alerts := None |}.

(** A live State that holds a NaN under "temp". *)
Definition liveNaN : @State instance :=
  {| data := Some {["temp" := VFloat64 nan]}; errors := None; alerts := None |}.

(** A live State with 42 and an error under "temp". *)
Definition failing : @State instance :=
  setError live42 "temp" (Some "boom").

(** A sink that accepts everything, and one that always fails. *)
Definition sink : @Writer instance := {| Save := λ _ _ _ _, None |}.
Definition broken_sink : @Writer instance :=
  {| Save := λ _ _ _ _, Some ("disk full" : @error instance) |}.

Definition or_else {A} (d : A) (r : result A) : A :=
  match r with
  | Ok a => a
  | Panic _ _ => d
  end.

(** A Supervisor with one Metric "temp", sampled every ten seconds by a
    probe function that reports 42, one Listener and a sink. *)
Definition cockpit : @Supervisor instance :=
  let s := NewSupervisor "cockpit" [WithStore sink] in
  let s := or_else s (AddProbe s "temp" (10 * Second)
                        (IsProbeFunc (λ _, [CallSet "temp" (VInt 42)]))) in
  AddListener s "ui".


(** The Metric [AddProbe] has put into [cockpit]. *)
Definition temp : @Metric instance :=
  {| name := "temp"; interval := 10 * Second; lastUpdate := 0;
     probe := IsProbeFunc (λ _, [CallSet "temp" (VInt 42)]) |}.

(** The instant of a first tick, one second into 1970. *)
Definition first_tick : Z := unixEpoch + Second.

Section Properties.

Context `{Collaborators}.

(** ** Properties of State and StateMutation *)

Lemma merge_lookup (d other : gmap string value) (k : string) :
  merge d other !! k =
  match other !! k with
  | Some v => Some v
  | None => d !! k
  end.
Proof.
  unfold merge.
  apply (map_fold_weak_ind
           (λ r (m : gmap string value),
              r !! k = match m !! k with Some v => Some v | None => d !! k end)).
  - by rewrite lookup_empty.
  - intros i x m r _ IH. rewrite !lookup_insert.
    destruct (decide (i = k)); [done | exact IH].
Qed.

Lemma table_make_data (s : State) : table (data (make_data s)) = table (data s).
Proof. unfold make_data. destruct (data s) eqn:E; cbn; by rewrite ?E. Qed.

Lemma apply_data (s other : State) :
  data (apply s other) = Some (merge (table (data s)) (table (data other))).
Proof. unfold apply. cbn. by rewrite table_make_data. Qed.

Lemma apply_errors (s other : State) : errors (apply s other) = errors s.
Proof. unfold apply, make_data. cbn. by destruct (data s). Qed.

Lemma index_table {V} (m : gomap V) (k : string) : table m !! k = index m k.
Proof. destruct m; [done | apply lookup_empty]. Qed.

(** What [apply] leaves under a key: the staged value if there is one,
    the live one otherwise. *)
Lemma apply_index (s other : State) (k : string) :
  index (data (apply s other)) k =
  match index (data other) k with
  | Some v => Some v
  | None => index (data s) k
  end.
Proof. rewrite apply_data. cbn. by rewrite merge_lookup, !index_table. Qed.

Lemma Apply_state (m : StateMutation) :
  state (Apply m) = apply (state m) (mutation m).
Proof. reflexivity. Qed.

(** [Apply] never touches the error table of the live State. *)
Lemma Apply_errors (m : StateMutation) :
  errors (state (Apply m)) = errors (state m).
Proof. apply apply_errors. Qed.

(** Every staged value is in the live State after [Apply]. *)
Lemma Apply_staged_data (m : StateMutation) (k : string) (v : value) :
  index (data (mutation m)) k = Some v →
  index (data (state (Apply m))) k = Some v.
Proof. intros Hk. by rewrite Apply_state, apply_index, Hk. Qed.

Lemma Set_state (m : StateMutation) (k : string) (v : value) :
  state (Set_ m k v) = state m.
Proof. unfold Set_. by destruct (iface_eq _ _). Qed.

Lemma make_errors_data (s : State) : data (make_errors s) = data s.
Proof. unfold make_errors. by destruct (errors s). Qed.

Lemma make_errors_alerts (s : State) : alerts (make_errors s) = alerts s.
Proof. unfold make_errors. by destruct (errors s). Qed.

Lemma make_errors_table (s : State) :
  table (errors (make_errors s)) = table (errors s).
Proof. unfold make_errors. destruct (errors s) eqn:E; cbn; by rewrite ?E. Qed.

Lemma SetError_state (m : StateMutation) (k : string) (e : option error) :
  state (SetError m k e) = make_errors (state m).
Proof. unfold SetError. cbn. by destruct (bool_decide _). Qed.

Lemma do_call_data (m : StateMutation) (c : call) :
  data (state (do_call m c)) = data (state m).
Proof.
  destruct c; cbn.
  - by rewrite Set_state.
  - by rewrite SetError_state, make_errors_data.
Qed.

Lemma do_calls_data (cs : list call) (m : StateMutation) :
  data (state (do_calls m cs)) = data (state m).
Proof.
  unfold do_calls. revert m.
  induction cs as [|c cs IH]; intros m; [done |].
  cbn. by rewrite IH, do_call_data.
Qed.

Lemma do_call_errors (m : StateMutation) (c : call) :
  table (errors (state (do_call m c))) = table (errors (state m)).
Proof.
  destruct c; cbn.
  - by rewrite Set_state.
  - by rewrite SetError_state, make_errors_table.
Qed.

Lemma do_calls_errors (cs : list call) (m : StateMutation) :
  table (errors (state (do_calls m cs))) = table (errors (state m)).
Proof.
  unfold do_calls. revert m.
  induction cs as [|c cs IH]; intros m; [done |].
  cbn. by rewrite IH, do_call_errors.
Qed.

(** C10: [Set] leaves the live State as it is and touches only the staging
    State and the dirty flag; [SetError] leaves the live data mapping, the
    alerts and the content of the error table as they are; so does any
    sequence of the two, whatever was staged.  The live data mapping
    changes at [Apply], which writes the staged values into it. *)
Theorem C10_staging_leaves_live_data :
  (∀ (m : StateMutation) k v, state (Set_ m k v) = state m) ∧
  (∀ (m : StateMutation) k e,
      data (state (SetError m k e)) = data (state m) ∧
      alerts (state (SetError m k e)) = alerts (state m) ∧
      table (errors (state (SetError m k e))) = table (errors (state m))) ∧
  (∀ (m : StateMutation) cs, data (state (do_calls m cs)) = data (state m)) ∧
  (∀ (m : StateMutation) cs k,
      index (data (state (Apply (do_calls m cs)))) k =
      match index (data (mutation (do_calls m cs))) k with
      | Some v => Some v
      | None => index (data (state m)) k
      end).
Proof.
  split; [apply Set_state |].
  split.
  { intros m k e. rewrite SetError_state.
    by rewrite make_errors_data, make_errors_alerts, make_errors_table. }
  split; [intros m cs; apply do_calls_data |].
  intros m cs k. by rewrite Apply_state, apply_index, do_calls_data.
Qed.

(** Values other than floats are equal to themselves under [==]. *)
Lemma iface_eq_refl (v : value) : is_float v = false → iface_eq v v = true.
Proof.
  destruct v; cbn; try done; intros _.
  - apply Z.eqb_refl.
  - apply Z.eqb_refl.
  - apply Z.eqb_refl.
  - apply Z.eqb_refl.
  - by destruct b.
  - apply String.eqb_refl.
Qed.

Lemma Set_noop (m : StateMutation) (k : string) (v : value) :
  iface_eq (elem (state m) k) v = true → Set_ m k v = m.
Proof. intros Heq. unfold Set_. by rewrite Heq. Qed.

(** C3: when the live State holds [v] at [k] and [v] is equal to itself
    under Go's [==] (every value but a floating-point NaN), [Set(k, v)]
    returns the Mutation as it was: the dirty flag is not set and nothing
    is staged by the call.  If no earlier call staged a value for [k],
    what [Apply] leaves under [k] in the live State is what was there. *)
Theorem C3_set_same_value_is_noop (m : StateMutation) (k : string) (v : value) :
  elem (state m) k = v →
  iface_eq v v = true →
  Set_ m k v = m ∧
  (index (data (mutation m)) k = None →
   index (data (state (Apply (Set_ m k v)))) k = index (data (state m)) k).
Proof.
  intros Hlive Hrefl.
  assert (Set_ m k v = m) as Hnoop.
  { apply Set_noop. by rewrite Hlive. }
  split; [exact Hnoop |].
  intros Hfresh. by rewrite Hnoop, Apply_state, apply_index, Hfresh.
Qed.

Lemma index_make_data (s : State) (k : string) :
  index (data (make_data s)) k = index (data s) k.
Proof. by rewrite <- !index_table, table_make_data. Qed.

Lemma elem_absent (s : State) (k : string) :
  index (data s) k = None → elem (make_data s) k = VNil.
Proof. intros Hk. unfold elem. by rewrite index_make_data, Hk. Qed.

(** C9: on a key the data mapping does not hold, [Int], [Float], [Bool]
    and [String] return 0, 0.0, false and the empty string; none of them
    panics. *)
Theorem C9_absent_key_zero_values (s : State) (name : string) :
  index (data s) name = None →
  (Int s name).2 = Ok 0 ∧
  (Float s name).2 = Ok 0%float ∧
  (Bool s name).2 = Ok false ∧
  (String s name).2 = Ok "".
Proof.
  intros Hk. unfold Int, Float, Bool, String. cbn.
  by rewrite (elem_absent s name Hk).
Qed.

(** C4: when [encoding/json] can encode the three maps, [MarshalJSON]
    yields an object whose members are, in this order, the data mapping
    under the name [state], the error mapping under [errors] unless it is
    empty, and the alert mapping under [alerts] unless it is empty. *)
Theorem C4_MarshalJSON_members (s : State) (st er al : json) :
  marshal_map marshal_value (data s) = Some st →
  marshal_map marshal_Error (errors s) = Some er →
  marshal_map marshal_Alert (alerts s) = Some al →
  MarshalJSON s =
  Some (JObject ([("state", st)]
                 ++ (if bool_decide (len (errors s) = 0%nat) then []
                     else [("errors", er)])
                 ++ (if bool_decide (len (alerts s) = 0%nat) then []
                     else [("alerts", al)]))).
Proof.
  intros Hst Her Hal. unfold MarshalJSON, omitempty.
  rewrite Hst, Her, Hal. cbn.
  by destruct (bool_decide (len (errors s) = 0%nat)),
              (bool_decide (len (alerts s) = 0%nat)).
Qed.

(** A map is encoded when each of its entries is. *)
Lemma marshal_map_is_Some {V} (enc : V → option json) (m : gomap V) :
  (∀ k v, index m k = Some v → is_Some (enc v)) →
  is_Some (marshal_map enc m).
Proof.
  intros Henc. destruct m as [t|]; [| by eexists].
  unfold marshal_map. apply fmap_is_Some, mapM_is_Some, Forall_forall.
  intros [k v] Hkv. apply elem_of_map_to_list in Hkv.
  destruct (Henc k v Hkv) as [j Hj]. cbn. rewrite Hj. by eexists.
Qed.

(** Every value but a NaN or an infinity is encoded. *)
Lemma marshal_value_is_Some (v : value) :
  (∀ f, v = VFloat32 f ∨ v = VFloat64 f →
        (PrimFloat.is_nan f || PrimFloat.is_infinity f)%bool = false) →
  is_Some (marshal_value v).
Proof.
  intros Hf. destruct v; cbn; try by eexists.
  - unfold marshal_float. rewrite (Hf f) by auto. by eexists.
  - unfold marshal_float. rewrite (Hf f) by auto. by eexists.
Qed.

(** [MarshalJSON] succeeds when the three maps are encoded. *)
Lemma MarshalJSON_is_Some (s : State) :
  is_Some (marshal_map marshal_value (data s)) →
  is_Some (marshal_map marshal_Error (errors s)) →
  is_Some (marshal_map marshal_Alert (alerts s)) →
  is_Some (MarshalJSON s).
Proof.
  intros [st Hst] [er Her] [al Hal]. unfold MarshalJSON, omitempty.
  rewrite Hst, Her, Hal. cbn.
  destruct (bool_decide (len (errors s) = 0%nat)),
           (bool_decide (len (alerts s) = 0%nat)); by eexists.
Qed.

(** A value [encoding/json] does not support makes [MarshalJSON] fail. *)
Lemma MarshalJSON_unsupported (s : State) :
  marshal_map marshal_value (data s) = None → MarshalJSON s = None.
Proof. intros Hst. unfold MarshalJSON. by rewrite Hst. Qed.

(** ** Properties of the sampling loop *)

Lemma After_Add (now last d : Z) :
  After now (Add last d) = true ↔ last + d < now.
Proof. unfold After, Add. apply Z.ltb_lt. Qed.

Lemma updateState_due (mg : Metric) (now : Z) (m : StateMutation) :
  After now (Add (lastUpdate mg) (interval mg)) = true →
  updateState mg now m =
  match probe mg with
  | IsProbe p | IsProbeFunc p => (do_calls m (p now), [CallProbe (name mg)])
  | NotAProbe => (m, [])
  end.
Proof. intros Hdue. unfold updateState. rewrite Hdue. by destruct (probe mg). Qed.

Lemma visit_due (now : Z) (key : string) (mg : Metric)
    (m : StateMutation) (ms : gmap string Metric) (tr : list event) :
  After now (Add (lastUpdate mg) (interval mg)) = true →
  visit now key mg (m, ms, tr) =
  ((updateState mg now m).1, <[key := touched mg now]> ms,
   tr ++ (updateState mg now m).2).
Proof.
  intros Hdue. unfold visit. rewrite Hdue.
  by destruct (updateState mg now m).
Qed.

Lemma visit_not_due (now : Z) (key : string) (mg : Metric)
    (m : StateMutation) (ms : gmap string Metric) (tr : list event) :
  After now (Add (lastUpdate mg) (interval mg)) = false →
  visit now key mg (m, ms, tr) =
  (match getError (state m) (name mg) with
   | Some err => SetError m (name mg) (Some (Error_as_error err))
   | None => m
   end, ms, tr).
Proof. intros Hdue. unfold visit. by rewrite Hdue. Qed.

Lemma visit_metrics (now : Z) (key : string) (mg : Metric)
    (acc : StateMutation * gmap string Metric * list event) :
  acc.1.2 !! key = Some mg →
  (visit now key mg acc).1.2 = <[key := visited now mg]> acc.1.2.
Proof.
  destruct acc as [[m ms] tr]. cbn [fst snd]. intros Hkey. unfold visited.
  destruct (After now (Add (lastUpdate mg) (interval mg))) eqn:Hdue.
  - by rewrite visit_due.
  - rewrite visit_not_due by done. cbn [fst snd]. by rewrite insert_id.
Qed.

Lemma probes_only_app (tr1 tr2 : list event) :
  probes_only tr1 → probes_only tr2 → probes_only (tr1 ++ tr2).
Proof.
  unfold probes_only, listener_calls, save_calls, logged.
  intros (H1 & H2 & H3) (H4 & H5 & H6).
  rewrite !omap_app, H1, H2, H3, H4, H5, H6. done.
Qed.

Lemma updateState_probes_only (mg : Metric) (now : Z) (m : StateMutation) :
  probes_only (updateState mg now m).2.
Proof.
  unfold updateState.
  destruct (negb _); [done |].
  by destruct (probe mg).
Qed.

Lemma visit_probes_only (now : Z) (key : string) (mg : Metric)
    (acc : StateMutation * gmap string Metric * list event) :
  probes_only acc.2 → probes_only (visit now key mg acc).2.
Proof.
  destruct acc as [[m ms] tr]. cbn [fst snd]. intros Htr.
  destruct (After now (Add (lastUpdate mg) (interval mg))) eqn:Hdue.
  - rewrite visit_due by done. cbn [fst snd].
    apply probes_only_app; [done | apply updateState_probes_only].
  - by rewrite visit_not_due.
Qed.

Lemma sample_probes_only (s : Supervisor) (now : Z) :
  probes_only (sample s now).2.
Proof.
  unfold sample.
  apply (map_fold_weak_ind
           (λ (r : StateMutation * gmap string Metric * list event)
              (_ : gmap string Metric), probes_only r.2)).
  - done.
  - intros i x m r _ IH. by apply visit_probes_only.
Qed.

Lemma sample_metrics (s : Supervisor) (now : Z) :
  (sample s now).1.2 = visited now <$> metrics s.
Proof.
  unfold sample.
  assert (∀ sub : gmap string Metric,
             sub ⊆ metrics s →
             (map_fold (visit now) (With (s_state s), metrics s, []) sub).1.2
             = (visited now <$> sub) ∪ metrics s) as Hsub.
  { intros sub.
    apply (map_fold_weak_ind
             (λ (r : StateMutation * gmap string Metric * list event)
                (sub : gmap string Metric),
                sub ⊆ metrics s → r.1.2 = (visited now <$> sub) ∪ metrics s)).
    - intros _. cbn. by rewrite fmap_empty, (left_id_L ∅ (∪)).
    - intros i x m r Hi IH Hle.
      assert (m ⊆ metrics s) as Hm.
      { etrans; [by apply insert_subseteq | exact Hle]. }
      assert (metrics s !! i = Some x) as Hx.
      { eapply lookup_weaken; [apply lookup_insert_eq | exact Hle]. }
      specialize (IH Hm).
      rewrite visit_metrics.
      + by rewrite IH, fmap_insert, insert_union_l.
      + rewrite IH, lookup_union_r; [done |].
        by rewrite lookup_fmap, Hi. }
  rewrite Hsub by done.
  apply map_eq. intros i.
  rewrite lookup_union, !lookup_fmap.
  by destruct (metrics s !! i).
Qed.

Lemma tick_unfold (s : Supervisor) (now : Z) :
  tick s now =
  let m := Apply (sample s now).1.1 in
  let s' := with_state (with_metrics s (sample s now).1.2) (state m) in
  (s', (sample s now).2 ++ notify (listeners s) m ++ persist s').
Proof. unfold tick. by destruct (sample s now) as [[m ms] tr]. Qed.

Lemma notify_calls (ls : list Listener) (m : StateMutation) :
  listener_calls (notify ls m) =
  if dirty m then (λ l, (l, state m)) <$> ls else [].
Proof.
  unfold notify, listener_calls. destruct (dirty m); [| done].
  induction ls as [|l ls IH]; [done |]. cbn. by rewrite IH.
Qed.

Lemma notify_listeners_only (ls : list Listener) (m : StateMutation) :
  save_calls (notify ls m) = [] ∧ logged (notify ls m) = [].
Proof.
  unfold notify, save_calls, logged. destruct (dirty m); [| done].
  induction ls as [|l ls [IH1 IH2]]; [done |]. cbn. by rewrite IH1, IH2.
Qed.

Lemma persist_no_listener (s : Supervisor) : listener_calls (persist s) = [].
Proof.
  unfold persist. destruct (store s) as [w|]; [| done].
  cbn. by destruct (Save w _ _ _ _).
Qed.

Lemma persist_calls (s : Supervisor) (w : Writer) :
  store s = Some w →
  save_calls (persist s) = [("gockpit", s_name s, data (s_state s), None)] ∧
  logged (persist s) =
  match Save w "gockpit" (s_name s) (data (s_state s)) None with
  | Some err => [(err, "could not save metrics state")]
  | None => []
  end.
Proof.
  intros Hw. unfold persist. rewrite Hw.
  by destruct (Save w _ _ _ _).
Qed.

Lemma iteration_continues (l : Loop) (c : selected) :
  (iteration l c).2 = Continue.
Proof.
  destruct c as [now|]; [| done].
  unfold iteration. by destruct (tick (sup l) now).
Qed.

(** No schedule makes the goroutine return: neither case of the [select]
    leaves the [for]. *)
Lemma goroutine_never_returns (sched : list step) (l : Loop) :
  (goroutine sched l).2 = Continue.
Proof.
  revert l. induction sched as [|st sched IH]; intros l; [done |].
  destruct st as [c|]; cbn [goroutine]; [| apply IH].
  destruct (ready l c); [| done].
  pose proof (iteration_continues l c) as Hc.
  destruct (iteration l c) as [[l' tr] ctl]. cbn in Hc. subst ctl.
  specialize (IH l'). by destruct (goroutine sched l') as [[l'' tr'] ctl'].
Qed.

(** C5: a Metric is due at a tick exactly when [now] is strictly after
    [lastUpdate + interval].  When it is due its probe is invoked and its
    [lastUpdate] becomes [now]; when it is not, no probe is invoked and
    [lastUpdate] stays.  With a zero [lastUpdate], any interval a
    [time.Duration] can hold is exceeded by the wall-clock time of a tick. *)
Theorem C5_due_iff_after_interval
    (s : Supervisor) (now : Z) (key : string) (mg : Metric) :
  metrics s !! key = Some mg →
  (∀ m ms tr,
      (lastUpdate mg + interval mg < now →
       visit now key mg (m, ms, tr) =
       (match probe mg with
        | IsProbe p | IsProbeFunc p => do_calls m (p now)
        | NotAProbe => m
        end,
        <[key := touched mg now]> ms,
        tr ++ match probe mg with
              | NotAProbe => []
              | _ => [CallProbe (name mg)]
              end)) ∧
      (¬ lastUpdate mg + interval mg < now →
       (visit now key mg (m, ms, tr)).1.2 = ms ∧
       (visit now key mg (m, ms, tr)).2 = tr)) ∧
  metrics (tick s now).1 !! key =
    Some (if bool_decide (lastUpdate mg + interval mg < now)
          then touched mg now else mg) ∧
  (lastUpdate mg = 0 → is_Duration (interval mg) → unixEpoch ≤ now →
   lastUpdate mg + interval mg < now).
Proof.
  intros Hkey. split; [| split].
  - intros m ms tr. split.
    + intros Hdue. apply After_Add in Hdue.
      rewrite visit_due, updateState_due by done.
      by destruct (probe mg).
    + intros Hnot.
      assert (After now (Add (lastUpdate mg) (interval mg)) = false) as Hf.
      { apply not_true_is_false. by rewrite After_Add. }
      by rewrite visit_not_due.
  - rewrite tick_unfold. cbn. rewrite sample_metrics, lookup_fmap, Hkey. cbn.
    unfold visited. f_equal.
    destruct (After now (Add (lastUpdate mg) (interval mg))) eqn:Hdue.
    + apply After_Add in Hdue. by rewrite bool_decide_eq_true_2.
    + rewrite bool_decide_eq_false_2; [done |].
      rewrite <- After_Add. by rewrite Hdue.
  - unfold is_Duration, unixEpoch, Second. lia.
Qed.


(** C8: with a persistence sink configured, every tick, dirty or not,
    calls [Save] exactly once, with the bucket "gockpit", the Supervisor's
    name, the data of the live State and nil tags.  An error [Save]
    returns is logged, and nothing else depends on it: the State and the
    metrics after the tick are the same whatever the sink is, and the
    iteration goes on to the next [select]. *)
Theorem C8_save_once_per_tick (s : Supervisor) (now : Z) (w : Writer) :
  store s = Some w →
  let s' := (tick s now).1 in
  save_calls (tick s now).2 = [("gockpit", s_name s, data (s_state s'), None)] ∧
  logged (tick s now).2 =
    match Save w "gockpit" (s_name s) (data (s_state s')) None with
    | Some err => [(err, "could not save metrics state")]
    | None => []
    end ∧
  (∀ w' : Writer,
      s_state (tick (WithStore w' s) now).1 = s_state s' ∧
      metrics (tick (WithStore w' s) now).1 = metrics s') ∧
  (∀ l : Loop, sup l = s → (iteration l (Tick now)).2 = Continue).
Proof.
  intros Hw. cbv zeta. split; [| split; [| split]].
  - rewrite tick_unfold. cbv zeta. cbn [fst snd].
    unfold save_calls. rewrite !omap_app.
    fold (save_calls (sample s now).2).
    fold (save_calls (notify (listeners s) (Apply (sample s now).1.1))).
    destruct (sample_probes_only s now) as (_ & -> & _).
    destruct (notify_listeners_only (listeners s) (Apply (sample s now).1.1))
      as [-> _].
    cbn [app].
    exact (proj1 (persist_calls
                    (with_state (with_metrics s (sample s now).1.2)
                       (state (Apply (sample s now).1.1))) w Hw)).
  - rewrite tick_unfold. cbv zeta. cbn [fst snd].
    unfold logged. rewrite !omap_app.
    fold (logged (sample s now).2).
    fold (logged (notify (listeners s) (Apply (sample s now).1.1))).
    destruct (sample_probes_only s now) as (_ & _ & ->).
    destruct (notify_listeners_only (listeners s) (Apply (sample s now).1.1))
      as [_ ->].
    cbn [app].
    exact (proj2 (persist_calls
                    (with_state (with_metrics s (sample s now).1.2)
                       (state (Apply (sample s now).1.1))) w Hw)).
  - intros w'. by rewrite !tick_unfold.
  - intros l _. apply iteration_continues.
Qed.

(** ** The error table of the live State *)


(** [State.setError] with a nil error removes the code from the table. *)
Lemma setError_nil_removes (s : State) (k : string) :
  Err (setError s k None) k = None.
Proof.
  unfold setError, Err. cbn.
  destruct (table (errors (make_errors s)) !! k) eqn:Hk; [| done].
  apply lookup_delete_eq.
Qed.

Lemma setError_records (s : State) (k : string) (e : error) :
  Err (setError s k (Some e)) k = Some {| Error_Err := Some e |}.
Proof. unfold setError, Err, Collect. cbn. apply lookup_insert_eq. Qed.

Lemma setError_nil_after_errors (s : State) (k : string) (es : list error) :
  Err (setError (foldl (λ s e, setError s k (Some e)) s es) k None) k = None.
Proof. apply setError_nil_removes. Qed.

(** Whatever error a Mutation is told to stage, the error table of the
    live State after [Apply] holds what it held before. *)
Lemma SetError_Apply_errors (m : StateMutation) (k : string) (e : option error) :
  table (errors (state (Apply (SetError m k e)))) = table (errors (state m)).
Proof. by rewrite Apply_errors, SetError_state, make_errors_table. Qed.

Lemma do_calls_Apply_errors (m : StateMutation) (cs : list call) :
  table (errors (state (Apply (do_calls m cs)))) = table (errors (state m)).
Proof. by rewrite Apply_errors, do_calls_errors. Qed.

Lemma HasErrors_table (s : State) :
  HasErrors s = bool_decide (table (errors s) ≠ ∅).
Proof.
  unfold HasErrors, len, table.
  destruct (errors s) as [t|].
  - apply bool_decide_ext. rewrite <- map_size_non_empty_iff. lia.
  - apply bool_decide_ext. cbn. split; [lia | done].
Qed.


(** * Further properties *)

(** ** [State.apply] *)

Lemma merge_union (d other : gmap string value) : merge d other = other ∪ d.
Proof.
  apply map_eq. intros k. rewrite merge_lookup, lookup_union.
  by destruct (other !! k), (d !! k).
Qed.

(** The loop of [apply] run over the entries in any order. *)
Lemma range_insert_union (d : gmap string value) (l : list (string * value)) :
  foldr (λ kv acc, <[kv.1 := kv.2]> acc) d l = list_to_map l ∪ d.
Proof.
  induction l as [|[k v] l IH]; cbn.
  - by rewrite (left_id_L ∅ (∪)).
  - by rewrite IH, insert_union_l.
Qed.

(** X1: the data [apply] leaves is the union of the two tables in which
    the entries of [other] win; and in whatever order [range] hands out the
    entries of [other], the assignments of the loop build that union. *)
Theorem X1_apply_data_is_union (s other : State) :
  data (apply s other) = Some (table (data other) ∪ table (data s)) ∧
  (∀ order,
      order ≡ₚ map_to_list (table (data other)) →
      foldr (λ kv acc, <[kv.1 := kv.2]> acc) (table (data s)) order
      = table (data other) ∪ table (data s)).
Proof.
  split; [by rewrite apply_data, merge_union |].
  intros order Hperm. rewrite range_insert_union. f_equal.
  etrans; [| apply (list_to_map_to_list (table (data other)))].
  apply list_to_map_proper; [| done].
  rewrite Hperm. apply NoDup_fst_map_to_list.
Qed.

Lemma alerts_make_data (s : State) : alerts (make_data s) = alerts s.
Proof. unfold make_data. by destruct (data s). Qed.

Lemma elem_table (s : State) (k : string) :
  elem s k = default VNil (table (data s) !! k).
Proof. unfold elem. by rewrite index_table. Qed.

(** X2: [apply] runs the [update] hook of every registered alert, whether
    [other] stages anything for its key or not, on the value the State holds
    under the alert's key once the merge is done; it registers and drops no
    alert. *)
Theorem X2_apply_updates_every_alert (s other : State) (key : string) :
  index (alerts (apply s other)) key =
  alert_update (elem (apply s other) key) <$> index (alerts s) key.
Proof.
  rewrite elem_table, apply_data. cbn [table].
  unfold apply. cbn [alerts]. rewrite alerts_make_data, table_make_data.
  destruct (alerts s) as [al|]; [| done].
  cbn [index]. rewrite map_lookup_imap.
  by destruct (al !! key).
Qed.

(** ** Staging *)

Lemma elem_do_calls (m : StateMutation) (cs : list call) (k : string) :
  elem (state (do_calls m cs)) k = elem (state m) k.
Proof. unfold elem. by rewrite do_calls_data. Qed.

Lemma set_index (s : State) (k : string) (v : value) :
  index (data (set s k v)) k = Some v.
Proof. unfold set. cbn. apply lookup_insert_eq. Qed.

(** X3: a [Set] of a value that differs from the one the live State holds
    under the key, made after any other calls on the Mutation, marks the
    Mutation dirty and stages the value; after [Apply] the live State holds
    that value under the key. *)
Theorem X3_Set_then_Apply_reads_back
    (m : StateMutation) (cs : list call) (k : string) (v : value) :
  iface_eq (elem (state m) k) v = false →
  dirty (Set_ (do_calls m cs) k v) = true ∧
  index (data (mutation (Set_ (do_calls m cs) k v))) k = Some v ∧
  elem (state (Apply (Set_ (do_calls m cs) k v))) k = v.
Proof.
  intros Hne.
  assert (Set_ (do_calls m cs) k v =
          {| state := state (do_calls m cs);
             mutation := set (mutation (do_calls m cs)) k v;
             dirty := true |}) as ->.
  { unfold Set_. by rewrite elem_do_calls, Hne. }
  split; [done |]. split; [apply set_index |].
  unfold elem. rewrite (Apply_staged_data _ k v); [done |]. apply set_index.
Qed.

Lemma do_call_dirty (m : StateMutation) (c : call) :
  dirty m = true → dirty (do_call m c) = true.
Proof.
  intros Hd. destruct c as [k v|k e]; cbn.
  - unfold Set_. by destruct (iface_eq _ _).
  - unfold SetError. cbn. by destruct (bool_decide _).
Qed.

(** X4: the dirty flag is never reset: a Mutation that is dirty stays dirty
    whatever calls follow, [Apply] included. *)
Theorem X4_dirty_is_never_reset (m : StateMutation) (cs : list call) :
  dirty m = true →
  dirty (do_calls m cs) = true ∧ dirty (Apply (do_calls m cs)) = true.
Proof.
  intros Hd.
  assert (dirty (do_calls m cs) = true) as Hcs; [| by split].
  unfold do_calls. revert m Hd.
  induction cs as [|c cs IH]; intros m Hd; [done |].
  cbn. apply IH. by apply do_call_dirty.
Qed.

Lemma do_call_clean (m : StateMutation) (c : call) :
  (dirty m = false → mutation m = zero_State) →
  dirty (do_call m c) = false → mutation (do_call m c) = zero_State.
Proof.
  intros Hinv. destruct c as [k v|k e]; cbn.
  - unfold Set_. destruct (iface_eq _ _); [exact Hinv | done].
  - unfold SetError. cbn. destruct (bool_decide _); [exact Hinv | done].
Qed.

Lemma do_calls_clean (cs : list call) (m : StateMutation) :
  (dirty m = false → mutation m = zero_State) →
  dirty (do_calls m cs) = false → mutation (do_calls m cs) = zero_State.
Proof.
  unfold do_calls. revert m.
  induction cs as [|c cs IH]; intros m Hinv; [exact Hinv |].
  cbn. apply IH. by apply do_call_clean.
Qed.

Lemma apply_zero_State_data (s : State) :
  data (apply s zero_State) = Some (table (data s)).
Proof.
  rewrite apply_data, merge_union. cbn [zero_State data table].
  by rewrite (left_id_L ∅ (∪)).
Qed.

(** X5: a Mutation made by [With] that is not dirty after its calls has
    staged nothing, and [Apply] leaves every entry of the live data mapping
    and of the live error table as it was. *)
Theorem X5_clean_Mutation_changes_nothing (s : State) (cs : list call) :
  dirty (do_calls (With s) cs) = false →
  mutation (do_calls (With s) cs) = zero_State ∧
  table (data (state (Apply (do_calls (With s) cs)))) = table (data s) ∧
  table (errors (state (Apply (do_calls (With s) cs)))) = table (errors s).
Proof.
  intros Hclean.
  assert (mutation (do_calls (With s) cs) = zero_State) as Hz.
  { by apply do_calls_clean. }
  split; [exact Hz |]. split.
  - rewrite Apply_state, Hz, apply_zero_State_data. cbn [table].
    by rewrite do_calls_data.
  - by rewrite do_calls_Apply_errors.
Qed.

Lemma index_Err_make_errors (s : State) (k : string) :
  index_Err (errors (make_errors s)) k = index_Err (errors s) k.
Proof. unfold index_Err. by rewrite <- !index_table, make_errors_table. Qed.

(** X6: [SetError] with the error the live State already holds under the
    key (nil when it holds none) stages nothing and leaves the dirty flag
    alone; all it does is allocate the live error table when that is nil. *)
Theorem X6_SetError_same_error_is_noop
    (m : StateMutation) (k : string) (e : option error) :
  index_Err (errors (state m)) k = e →
  mutation (SetError m k e) = mutation m ∧
  dirty (SetError m k e) = dirty m ∧
  state (SetError m k e) = make_errors (state m).
Proof.
  intros He. unfold SetError. cbn.
  rewrite index_Err_make_errors, He, bool_decide_eq_true_2; done.
Qed.

(** ** The typed accessors *)

Lemma elem_make_data (s : State) (k : string) : elem (make_data s) k = elem s k.
Proof. unfold elem. by rewrite index_make_data. Qed.

(** X7: [Int], [Float] and [Bool] panic exactly when the State holds under
    the name a value that is not nil and not of the accessor's family:
    [Int] on anything but the four integer types, [Float] on anything but
    the two float types (an integer included), [Bool] on anything but a
    bool. *)
Theorem X7_accessors_panic_iff_mismatch (s : State) (name : string) :
  ((∃ v msg, (Int s name).2 = Panic v msg) ↔
   elem s name ≠ VNil ∧ is_integer (elem s name) = false) ∧
  ((∃ v msg, (Float s name).2 = Panic v msg) ↔
   elem s name ≠ VNil ∧ is_float (elem s name) = false) ∧
  ((∃ v msg, (Bool s name).2 = Panic v msg) ↔
   elem s name ≠ VNil ∧ is_bool (elem s name) = false).
Proof.
  unfold Int, Float, Bool. cbn [snd]. rewrite !elem_make_data.
  destruct (elem s name); cbn; split_and?;
    (split;
     [ intros (? & ? & Heq); try discriminate Heq; by split
     | intros [Hn Hf]; try discriminate Hf; try (by destruct Hn); eauto ]).
Qed.

Lemma make_data_allocated (s : State) : data s ≠ None → make_data s = s.
Proof. unfold make_data. by destruct (data s). Qed.

Lemma make_data_frame (s : State) :
  table (data (make_data s)) = table (data s) ∧
  errors (make_data s) = errors s ∧
  alerts (make_data s) = alerts s.
Proof.
  split; [apply table_make_data |].
  unfold make_data. by destruct (data s).
Qed.

(** X8: reading changes nothing a reader can see.  Each of [Int], [Float],
    [Elem], [Bool] and [String] leaves the entries of the data mapping, the
    error table and the alerts as they are, and returns the very State it
    was given when the data mapping is allocated. *)
Theorem X8_accessors_keep_the_State (s : State) (name : string) :
  let after := [(Int s name).1; (Float s name).1; (Elem s name).1;
                (Bool s name).1; (String s name).1] in
  Forall (λ s', table (data s') = table (data s) ∧
                errors s' = errors s ∧ alerts s' = alerts s ∧
                (data s ≠ None → s' = s)) after.
Proof.
  cbv zeta. unfold Int, Float, Elem, Bool, String. cbn [fst].
  pose proof (make_data_frame s) as (Hd & He & Ha).
  pose proof (make_data_allocated s) as Hs.
  repeat constructor; done.
Qed.

(** ** The error table *)

(** X9: [clearError] does to a State what [setError] does with a nil
    error. *)
Theorem X9_clearError_is_setError_nil (s : State) (code : string) :
  clearError s code = setError s code None.
Proof. reflexivity. Qed.



(** ** Serialization and the HTTP handler *)

Lemma marshal_map_None {V} (enc : V → option json) (m : gomap V) :
  marshal_map enc m = None ↔ ∃ k v, index m k = Some v ∧ enc v = None.
Proof.
  destruct m as [t|]; cbn [marshal_map index].
  2: { split; [done | by intros (? & ? & ? & _)]. }
  rewrite fmap_None, eq_None_not_Some, mapM_is_Some. split.
  - intros Hnot. apply not_Forall_Exists in Hnot; [| apply _].
    apply Exists_exists in Hnot as ([k v] & Hin & Hfail).
    exists k, v. split; [by apply elem_of_map_to_list |].
    cbn in Hfail. destruct (enc v); [| done].
    exfalso. apply Hfail. by eexists.
  - intros (k & v & Hkv & Hfail) Hall.
    apply elem_of_map_to_list in Hkv.
    rewrite Forall_forall in Hall. specialize (Hall _ Hkv).
    cbn in Hall. rewrite Hfail in Hall. by destruct Hall.
Qed.

Lemma marshal_map_empty {V} (enc : V → option json) (m : gomap V) :
  len m = 0%nat → is_Some (marshal_map enc m).
Proof.
  intros Hlen. apply marshal_map_is_Some. intros k v Hkv.
  destruct m as [t|]; [| done]. cbn in *.
  apply map_size_empty_inv in Hlen. subst t. by rewrite lookup_empty in Hkv.
Qed.

Lemma MarshalJSON_None (s : State) :
  MarshalJSON s = None ↔
  marshal_map marshal_value (data s) = None ∨
  marshal_map marshal_Error (errors s) = None ∨
  marshal_map marshal_Alert (alerts s) = None.
Proof.
  unfold MarshalJSON, omitempty.
  pose proof (marshal_map_empty marshal_Error (errors s)) as Her.
  pose proof (marshal_map_empty marshal_Alert (alerts s)) as Hal.
  destruct (marshal_map marshal_value (data s)) as [st|]; cbn;
    [| intuition congruence].
  destruct (bool_decide_reflect (len (errors s) = 0%nat)) as [He | He];
    destruct (bool_decide_reflect (len (alerts s) = 0%nat)) as [Ha | Ha];
    try (destruct (Her He) as [er Her']; rewrite Her');
    try (destruct (Hal Ha) as [al Hal']; rewrite Hal');
    repeat match goal with
           | |- context [marshal_map ?f ?m] => destruct (marshal_map f m)
           end;
    cbn; intuition congruence.
Qed.

Lemma marshal_value_None (v : value) :
  marshal_value v = None ↔
  ∃ f, (v = VFloat32 f ∨ v = VFloat64 f) ∧
       (PrimFloat.is_nan f || PrimFloat.is_infinity f)%bool = true.
Proof.
  destruct v; cbn; try (split; [done | by intros (? & [? | ?] & _)]).
  - unfold marshal_float.
    destruct (PrimFloat.is_nan f || PrimFloat.is_infinity f)%bool eqn:Hf.
    + split; [intros _; exists f; auto | done].
    + split; [done |]. intros (g & [Hg | Hg] & Hbad); [| done].
      injection Hg as Hfg. rewrite Hfg in Hf. cbn in Hf, Hbad. congruence.
  - unfold marshal_float.
    destruct (PrimFloat.is_nan f || PrimFloat.is_infinity f)%bool eqn:Hf.
    + split; [intros _; exists f; auto | done].
    + split; [done |]. intros (g & [Hg | Hg] & Hbad); [done |].
      injection Hg as Hfg. rewrite Hfg in Hf. cbn in Hf, Hbad. congruence.
Qed.

(** X12: [handlerState] answers with status 200 and the JSON content type
    whatever the State is.  It writes no body exactly when [MarshalJSON]
    fails, which is exactly when the data mapping holds a float that is a
    NaN or an infinity, or an error entry or an alert cannot be encoded. *)
Theorem X12_handlerState_body_missing_iff (s : Supervisor) :
  status (handlerState s) = 200 ∧
  header (handlerState s) = [("Content-Type", "application/json")] ∧
  (body (handlerState s) = None ↔
   (∃ k f, (index (data (s_state s)) k = Some (VFloat32 f) ∨
            index (data (s_state s)) k = Some (VFloat64 f)) ∧
           (PrimFloat.is_nan f || PrimFloat.is_infinity f)%bool = true) ∨
   (∃ k e, index (errors (s_state s)) k = Some e ∧ marshal_Error e = None) ∨
   (∃ k a, index (alerts (s_state s)) k = Some a ∧ marshal_Alert a = None)).
Proof.
  split; [done |]. split; [done |].
  cbn [handlerState body]. rewrite MarshalJSON_None, !marshal_map_None.
  apply or_iff_compat_r. split.
  - intros (k & v & Hkv & Hv). apply marshal_value_None in Hv as (f & Hf & Hbad).
    exists k, f. split; [| done]. destruct Hf as [-> | ->]; auto.
  - intros (k & f & Hkf & Hbad).
    destruct Hkf as [Hkf | Hkf]; eexists k, _; (split; [exact Hkf |]);
      apply marshal_value_None; eauto.
Qed.

Lemma member_cons (n k : string) (v : json) (ms : list (string * json)) :
  member n (JObject ((k, v) :: ms)) =
  if decide (k = n) then Some v else member n (JObject ms).
Proof.
  unfold member. cbn [list_find]. cbn [fst].
  destruct (decide (k = n)); [done |].
  by destruct (list_find (λ kv, kv.1 = n) ms) as [[i [k' v']]|].
Qed.

Lemma member_nil (n : string) : member n (JObject []) = None.
Proof. reflexivity. Qed.

(** X13: in what [MarshalJSON] yields, the member [state] is always
    there, the member [errors] is there exactly when [HasErrors] is true,
    and the member [alerts] exactly when an alert is registered. *)
Theorem X13_errors_member_iff_HasErrors (s : State) (j : json) :
  MarshalJSON s = Some j →
  is_Some (member "state" j) ∧
  (is_Some (member "errors" j) ↔ HasErrors s = true) ∧
  (is_Some (member "alerts" j) ↔ len (alerts s) ≠ 0%nat).
Proof.
  unfold MarshalJSON, omitempty, HasErrors. intros Hj.
  rewrite bool_decide_eq_true.
  destruct (marshal_map marshal_value (data s)) as [st|]; [| done].
  cbn in Hj.
  destruct (bool_decide_reflect (len (errors s) = 0%nat)) as [He | He];
    destruct (bool_decide_reflect (len (alerts s) = 0%nat)) as [Ha | Ha];
    repeat match type of Hj with
           | context [marshal_map ?f ?m] =>
               destruct (marshal_map f m); [| done]
           end;
    cbn in Hj; injection Hj as <-;
    rewrite ?member_cons, ?member_nil;
    repeat case_decide; try done;
    (split; [by eexists |]);
    (split; split; intros Hx; try lia; try done; try (by eexists);
     try (by destruct Hx)).
Qed.

(** ** Building a Supervisor *)

(** X14: the sampling interval of a new Supervisor is never zero, whatever
    the options do (one that leaves or sets it to zero yields the default of
    one second); an interval other than zero given by the last option is
    the one the Supervisor has. *)
Theorem X14_NewSupervisor_interval_not_zero
    (name : string) (opts : list (Supervisor → Supervisor)) :
  samplingInterval (NewSupervisor name opts) ≠ 0 ∧
  (∀ d, samplingInterval (NewSupervisor name (opts ++ [WithSamplingInterval d]))
        = if d =? 0 then Second else d).
Proof.
  split.
  - unfold NewSupervisor.
    destruct (samplingInterval _ =? 0) eqn:Hz; [done |].
    by apply Z.eqb_neq.
  - intros d. unfold NewSupervisor. rewrite foldl_app. cbn.
    by destruct (d =? 0).
Qed.

(** X15: [AddProbe] panics exactly when the probe is neither a [Probe]
    nor a [ProbeFunc].  Otherwise it puts under the name a Metric with that
    name, interval and probe that has never been sampled, in place of the
    Metric registered under the name before, if any; the other Metrics, the
    State, the Listeners and the store stay. *)
Theorem X15_AddProbe_registers_fresh_Metric
    (s : Supervisor) (n : string) (i : Z) (p : probe_value) :
  ((∃ v msg, AddProbe s n i p = Panic v msg) ↔ p = NotAProbe) ∧
  (p ≠ NotAProbe →
   ∃ s', AddProbe s n i p = Ok s' ∧
         metrics s' !! n =
           Some {| name := n; interval := i; lastUpdate := 0; probe := p |} ∧
         (∀ n', n ≠ n' → metrics s' !! n' = metrics s !! n') ∧
         s_state s' = s_state s ∧ listeners s' = listeners s ∧
         store s' = store s).
Proof.
  unfold AddProbe, NewMetric. split.
  - destruct p; cbn; (split; [intros (? & ? & ?); by simplify_eq | intros ?]);
      try done; eauto.
  - intros Hp.
    destruct p; [| | done]; eexists; (split; [reflexivity |]); cbn;
      (split; [apply lookup_insert_eq |]);
      (split; [intros n' Hn'; by apply lookup_insert_ne |]);
      done.
Qed.

(** X16: [AddAlert] registers the alert under the ID, in place of the one
    registered under it before, and leaves the other alerts, the data
    mapping, the error table, the Metrics and the Listeners as they are.
    The next [apply] hands the alert the value the State then holds under
    the ID. *)
Theorem X16_AddAlert_registers (s : Supervisor) (ID : string) (a : Alert) :
  let s' := AddAlert s ID a in
  index (alerts (s_state s')) ID = Some a ∧
  (∀ ID', ID ≠ ID' →
          index (alerts (s_state s')) ID' = index (alerts (s_state s)) ID') ∧
  data (s_state s') = data (s_state s) ∧
  errors (s_state s') = errors (s_state s) ∧
  metrics s' = metrics s ∧ listeners s' = listeners s ∧
  (∀ other, index (alerts (apply (s_state s') other)) ID =
            Some (alert_update (elem (apply (s_state s') other) ID) a)).
Proof.
  cbv zeta.
  assert (index (alerts (s_state (AddAlert s ID a))) ID = Some a) as Hid.
  { cbn. apply lookup_insert_eq. }
  split; [exact Hid |]. split.
  { intros ID' Hne. cbn. rewrite lookup_insert_ne by done. apply index_table. }
  repeat split.
  intros other.
  assert (∀ st key,
             index (alerts (apply st other)) key =
             alert_update (elem (apply st other) key) <$> index (alerts st) key)
    as Hupd.
  { intros st key. rewrite elem_table, apply_data. cbn [table].
    unfold apply. cbn [alerts]. rewrite alerts_make_data, table_make_data.
    destruct (alerts st) as [al|]; [| done].
    cbn [index]. rewrite map_lookup_imap. by destruct (al !! key). }
  by rewrite Hupd, Hid.
Qed.

(** ** [Stop] *)

(** X17: [Stop] on a Supervisor that [Run] was never called on does
    nothing; after [Run] it closes the channel of [ctx.Done()]; a second
    [Stop] changes nothing more; and [Stop] never touches the Supervisor
    itself. *)
Theorem X17_Stop_is_idempotent (l : Loop) :
  (cancel (sup l) = None → Stop l = l) ∧
  (∀ s parent, ctx_done (Stop (Run s parent)) = true) ∧
  Stop (Stop l) = Stop l ∧
  sup (Stop l) = sup l.
Proof.
  unfold Stop. split; [by intros -> |]. split; [done |].
  destruct (cancel (sup l)) eqn:Hc; cbn; rewrite ?Hc; done.
Qed.

(** ** A tick *)

(** The loop over the Metrics, by induction on the Metrics visited. *)
Lemma sample_ind (s : Supervisor) (now : Z)
    (P : StateMutation * gmap string Metric * list event →
         gmap string Metric → Prop) :
  P (With (s_state s), metrics s, []) ∅ →
  (∀ key mg sub acc,
      sub !! key = None → metrics s !! key = Some mg →
      P acc sub → P (visit now key mg acc) (<[key := mg]> sub)) →
  P (sample s now) (metrics s).
Proof.
  intros Hinit Hstep. unfold sample.
  assert (∀ sub : gmap string Metric,
             sub ⊆ metrics s →
             P (map_fold (visit now) (With (s_state s), metrics s, []) sub) sub)
    as Hsub; [| by apply Hsub].
  intros sub.
  apply (map_fold_weak_ind
           (λ r (sub : gmap string Metric), sub ⊆ metrics s → P r sub)).
  - done.
  - intros key mg m r Hkey IH Hle.
    apply Hstep; [done | |].
    + eapply lookup_weaken; [apply lookup_insert_eq | exact Hle].
    + apply IH. etrans; [by apply insert_subseteq | exact Hle].
Qed.

Lemma do_calls_app (m : StateMutation) (cs1 cs2 : list call) :
  do_calls m (cs1 ++ cs2) = do_calls (do_calls m cs1) cs2.
Proof. unfold do_calls. apply foldl_app. Qed.

(** Whatever a visit does to the Mutation is a sequence of calls of [Set]
    and [SetError]. *)
Lemma visit_is_calls (now : Z) (key : string) (mg : Metric)
    (acc : StateMutation * gmap string Metric * list event) :
  ∃ cs, (visit now key mg acc).1.1 = do_calls acc.1.1 cs.
Proof.
  destruct acc as [[m ms] tr]. cbn [fst snd].
  destruct (After now (Add (lastUpdate mg) (interval mg))) eqn:Hdue.
  - rewrite visit_due, updateState_due by done. cbn [fst].
    destruct (probe mg) as [p|p|]; [by exists (p now).. | by exists []].
  - rewrite visit_not_due by done. cbn [fst].
    destruct (getError (state m) (name mg)) as [err|]; [| by exists []].
    by exists [CallSetError (name mg) (Some (Error_as_error err))].
Qed.

Lemma sample_is_calls (s : Supervisor) (now : Z) :
  ∃ cs, (sample s now).1.1 = do_calls (With (s_state s)) cs.
Proof.
  apply (sample_ind s now
           (λ acc _, ∃ cs, acc.1.1 = do_calls (With (s_state s)) cs)).
  - by exists [].
  - intros key mg sub acc _ _ [cs Hcs].
    destruct (visit_is_calls now key mg acc) as [cs' Hcs'].
    exists (cs ++ cs'). by rewrite Hcs', Hcs, do_calls_app.
Qed.

Lemma do_calls_alerts (cs : list call) (m : StateMutation) :
  alerts (state (do_calls m cs)) = alerts (state m).
Proof.
  unfold do_calls. revert m.
  induction cs as [|c cs IH]; intros m; [done |].
  cbn. rewrite IH. destruct c; cbn.
  - by rewrite Set_state.
  - by rewrite SetError_state, make_errors_alerts.
Qed.

Lemma tick_state (s : Supervisor) (now : Z) :
  s_state (tick s now).1 = state (Apply (sample s now).1.1).
Proof. by rewrite tick_unfold. Qed.

Lemma tick_metrics (s : Supervisor) (now : Z) :
  metrics (tick s now).1 = visited now <$> metrics s.
Proof. rewrite tick_unfold. cbn. apply sample_metrics. Qed.

(** X18: a tick leaves the configuration of the Supervisor alone: the
    Listeners, the store, the name, the sampling interval and the cancel
    function are the ones of before, the same names are registered, and a
    Metric keeps its name, interval and probe; its [lastUpdate] is the one
    of before or the instant of the tick. *)
Theorem X18_tick_keeps_configuration (s : Supervisor) (now : Z) :
  let s' := (tick s now).1 in
  listeners s' = listeners s ∧ store s' = store s ∧ s_name s' = s_name s ∧
  samplingInterval s' = samplingInterval s ∧ cancel s' = cancel s ∧
  dom (metrics s') = dom (metrics s) ∧
  (∀ key mg', metrics s' !! key = Some mg' →
     ∃ mg, metrics s !! key = Some mg ∧
           name mg' = name mg ∧ interval mg' = interval mg ∧
           probe mg' = probe mg ∧
           (lastUpdate mg' = lastUpdate mg ∨ lastUpdate mg' = now)).
Proof.
  cbv zeta. rewrite tick_metrics, tick_unfold. cbn.
  repeat split.
  - apply dom_fmap_L.
  - intros key mg'. rewrite lookup_fmap.
    destruct (metrics s !! key) as [mg|]; [| done].
    cbn. intros [= <-]. exists mg. split; [done |].
    unfold visited. destruct (After _ _); cbn; auto.
Qed.

(** X19: a tick removes no key from the data mapping of the live State,
    leaves every entry of its error table as it was, and registers and
    drops no alert. *)
Theorem X19_tick_keeps_keys_and_errors (s : Supervisor) (now : Z) :
  let s' := (tick s now).1 in
  dom (table (data (s_state s))) ⊆ dom (table (data (s_state s'))) ∧
  table (errors (s_state s')) = table (errors (s_state s)) ∧
  dom (table (alerts (s_state s'))) = dom (table (alerts (s_state s))).
Proof.
  cbv zeta. rewrite tick_state.
  destruct (sample_is_calls s now) as [cs ->].
  split; [| split].
  - rewrite Apply_state, apply_data, merge_union, do_calls_data. cbn [table].
    cbn [With state]. rewrite dom_union. set_solver.
  - by rewrite do_calls_Apply_errors.
  - rewrite Apply_state. unfold apply. cbn [alerts].
    rewrite alerts_make_data, do_calls_alerts. cbn [With state].
    destruct (alerts (s_state s)) as [al|]; [| done].
    cbn [table]. apply set_eq. intros k.
    rewrite !elem_of_dom, map_lookup_imap.
    by destruct (al !! k).
Qed.

(** X20: a Metric sampled at a tick rests for its interval: at a later
    tick no later than [now + interval] it is not due, its probe is not
    invoked, and its [lastUpdate] is still the instant it was sampled at. *)
Theorem X20_sampled_Metric_rests
    (s : Supervisor) (now now2 : Z) (key : string) (mg : Metric) :
  metrics s !! key = Some mg →
  lastUpdate mg + interval mg < now →
  now2 ≤ now + interval mg →
  metrics (tick s now).1 !! key = Some (touched mg now) ∧
  metrics (tick (tick s now).1 now2).1 !! key = Some (touched mg now) ∧
  (∀ m ms tr,
      (visit now2 key (touched mg now) (m, ms, tr)).1.2 = ms ∧
      (visit now2 key (touched mg now) (m, ms, tr)).2 = tr).
Proof.
  intros Hkey Hdue Hrest.
  assert (visited now mg = touched mg now) as Hv.
  { unfold visited. by rewrite (proj2 (After_Add _ _ _) Hdue). }
  assert (After now2 (Add (lastUpdate (touched mg now)) (interval (touched mg now)))
          = false) as Hnot.
  { apply not_true_is_false. rewrite After_Add. cbn. lia. }
  assert (metrics (tick s now).1 !! key = Some (touched mg now)) as H1.
  { by rewrite tick_metrics, lookup_fmap, Hkey, <- Hv. }
  split; [exact H1 |]. split.
  - rewrite tick_metrics, lookup_fmap, H1. cbn. unfold visited. by rewrite Hnot.
  - intros m ms tr. by rewrite visit_not_due.
Qed.

Lemma probe_calls_app (tr1 tr2 : list event) :
  probe_calls (tr1 ++ tr2) = probe_calls tr1 ++ probe_calls tr2.
Proof. apply omap_app. Qed.

Lemma notify_no_probe (ls : list Listener) (m : StateMutation) :
  probe_calls (notify ls m) = [].
Proof.
  unfold notify, probe_calls. destruct (dirty m); [| done].
  induction ls as [|l ls IH]; [done |]. cbn. by rewrite IH.
Qed.

Lemma persist_no_probe (s : Supervisor) : probe_calls (persist s) = [].
Proof.
  unfold persist. destruct (store s) as [w|]; [| done].
  cbn. by destruct (Save w _ _ _ _).
Qed.

Lemma tick_probe_calls (s : Supervisor) (now : Z) :
  probe_calls (tick s now).2 = probe_calls (sample s now).2.
Proof.
  rewrite tick_unfold. cbn [snd].
  by rewrite !probe_calls_app, notify_no_probe, persist_no_probe,
       !(right_id_L [] (++)).
Qed.

(** The probe calls of one visit. *)
Lemma visit_probe_calls (now : Z) (key : string) (mg : Metric)
    (acc : StateMutation * gmap string Metric * list event) :
  probe_calls (visit now key mg acc).2 =
  probe_calls acc.2 ++
  (if After now (Add (lastUpdate mg) (interval mg))
   then match probe mg with NotAProbe => [] | _ => [name mg] end
   else []).
Proof.
  destruct acc as [[m ms] tr]. cbn [fst snd].
  destruct (After now (Add (lastUpdate mg) (interval mg))) eqn:Hdue.
  - rewrite visit_due, updateState_due by done. cbn [snd].
    rewrite probe_calls_app. by destruct (probe mg).
  - rewrite visit_not_due by done. cbn [snd]. by rewrite (right_id_L [] (++)).
Qed.

(** X21: the probes invoked in a tick are those of the Metrics that are
    due and hold a probe: a name is among the probe calls of the tick
    exactly when a registered Metric of that name has
    [lastUpdate + interval < now] and a [Probe] or [ProbeFunc]. *)
Theorem X21_probes_called_iff_due (s : Supervisor) (now : Z) (n : string) :
  n ∈ probe_calls (tick s now).2 ↔
  ∃ key mg, metrics s !! key = Some mg ∧ name mg = n ∧
            lastUpdate mg + interval mg < now ∧ probe mg ≠ NotAProbe.
Proof.
  rewrite tick_probe_calls.
  apply (sample_ind s now
           (λ acc sub,
              n ∈ probe_calls acc.2 ↔
              ∃ key mg, sub !! key = Some mg ∧ name mg = n ∧
                        lastUpdate mg + interval mg < now ∧
                        probe mg ≠ NotAProbe)).
  - cbn. split; [by intros ?%elem_of_nil |].
    intros (key & mg & Hkey & _). by rewrite lookup_empty in Hkey.
  - intros key mg sub acc Hfresh _ IH.
    rewrite visit_probe_calls, elem_of_app, IH. split.
    + intros [(key' & mg' & Hkey' & Hrest) | Hnew].
      * exists key', mg'. split; [| done].
        rewrite lookup_insert_ne; [done |]. intros <-. congruence.
      * destruct (After now (Add (lastUpdate mg) (interval mg))) eqn:Hdue;
          [| by apply elem_of_nil in Hnew].
        apply After_Add in Hdue.
        exists key, mg. rewrite lookup_insert_eq.
        destruct (probe mg); try (by apply elem_of_nil in Hnew);
          apply list_elem_of_singleton in Hnew; by subst.
    + intros (key' & mg' & Hkey' & Hname & Hdue & Hprobe).
      destruct (decide (key = key')) as [<- | Hne].
      * rewrite lookup_insert_eq in Hkey'. injection Hkey' as <-.
        right. rewrite (proj2 (After_Add _ _ _) Hdue).
        destruct (probe mg); try done; by apply list_elem_of_singleton.
      * rewrite lookup_insert_ne in Hkey' by done.
        left. by exists key', mg'.
Qed.

Lemma HasErrors_false_getError (s : State) (code : string) :
  HasErrors s = false → getError s code = None.
Proof.
  rewrite HasErrors_table. intros Hno%bool_decide_eq_false.
  unfold getError. rewrite <- index_table.
  destruct (decide (table (errors s) = ∅)) as [-> | Hne]; [apply lookup_empty |].
  by destruct Hno.
Qed.

(** X22: a tick at which no Metric is due, on a State without errors, is
    idle: no probe and no Listener is called, the Mutation is applied
    empty, and the Metrics and every entry of the data mapping are the ones
    of before. *)
Theorem X22_idle_tick (s : Supervisor) (now : Z) :
  (∀ key mg, metrics s !! key = Some mg → ¬ lastUpdate mg + interval mg < now) →
  HasErrors (s_state s) = false →
  sample s now = (With (s_state s), metrics s, []) ∧
  probe_calls (tick s now).2 = [] ∧
  listener_calls (tick s now).2 = [] ∧
  metrics (tick s now).1 = metrics s ∧
  table (data (s_state (tick s now).1)) = table (data (s_state s)).
Proof.
  intros Hidle Hclean.
  assert (sample s now = (With (s_state s), metrics s, [])) as Hsample.
  { apply (sample_ind s now
             (λ acc _, acc = (With (s_state s), metrics s, []))); [done |].
    intros key mg sub acc _ Hkey ->.
    rewrite visit_not_due.
    - cbn [With state]. by rewrite HasErrors_false_getError.
    - apply not_true_is_false. rewrite After_Add. by apply (Hidle key). }
  split; [exact Hsample |].
  rewrite tick_probe_calls, tick_unfold, Hsample. cbn [fst snd].
  split; [done |]. split; [| split].
  - unfold listener_calls. rewrite omap_app. cbn.
    apply persist_no_listener.
  - done.
  - cbn [with_state s_state]. rewrite Apply_state. cbn [With state mutation].
    fold zero_State. by rewrite apply_zero_State_data.
Qed.

Lemma sample_all_probes (s : Supervisor) (now : Z) :
  (sample s now).2 = CallProbe <$> probe_calls (sample s now).2.
Proof.
  apply (sample_ind s now (λ acc _, acc.2 = CallProbe <$> probe_calls acc.2));
    [done |].
  intros key mg sub [[m ms] tr] _ _ IH. cbn [snd] in IH.
  destruct (After now (Add (lastUpdate mg) (interval mg))) eqn:Hdue.
  - rewrite visit_due, updateState_due by done. cbn [snd].
    rewrite probe_calls_app, fmap_app, <- IH.
    by destruct (probe mg).
  - by rewrite visit_not_due.
Qed.

(** X23: the calls of a tick come in three runs: first the probes, then
    the Listeners, then [Save] and the log entry of its failure.  No probe
    runs after a Listener, and the sink is called after the last
    Listener. *)
Theorem X23_tick_calls_in_order (s : Supervisor) (now : Z) :
  let tr := (tick s now).2 in
  tr = (CallProbe <$> probe_calls tr)
       ++ ((λ c, CallListener c.1 c.2) <$> listener_calls tr)
       ++ persist (tick s now).1.
Proof.
  cbv zeta. rewrite tick_probe_calls.
  assert (listener_calls (tick s now).2 =
          listener_calls (notify (listeners s) (Apply (sample s now).1.1)))
    as ->.
  { rewrite tick_unfold. cbn [snd]. unfold listener_calls at 1.
    rewrite !omap_app.
    fold (listener_calls (sample s now).2).
    destruct (sample_probes_only s now) as (-> & _ & _).
    cbn [app].
    change (omap _ (persist ?x)) with (listener_calls (persist x)).
    by rewrite persist_no_listener, (right_id_L [] (++)). }
  rewrite tick_unfold. cbv zeta. cbn [fst snd].
  rewrite <- sample_all_probes. f_equal. f_equal.
  rewrite notify_calls. unfold notify.
  destruct (dirty (Apply (sample s now).1.1)); [| done].
  rewrite <- list_fmap_compose. by apply list_fmap_ext.
Qed.

(** ** Composite behaviour *)


Lemma iface_eq_exact (u v : value) :
  is_float v = false → iface_eq u v = true → u = v.
Proof.
  destruct u, v; cbn; try done; intros _ Heq.
  - by apply Z.eqb_eq in Heq as ->.
  - by apply Z.eqb_eq in Heq as ->.
  - by apply Z.eqb_eq in Heq as ->.
  - by apply Z.eqb_eq in Heq as ->.
  - by apply Bool.eqb_prop in Heq as ->.
  - by apply String.eqb_eq in Heq as ->.
Qed.

Lemma elem_Apply_With (s : State) (k : string) :
  elem (state (Apply (With s))) k = elem s k.
Proof.
  rewrite Apply_state. cbn [With state mutation]. fold zero_State.
  by rewrite !elem_table, apply_zero_State_data.
Qed.

Lemma elem_Apply_Set_differs (m : StateMutation) (k : string) (v : value) :
  iface_eq (elem (state m) k) v = false →
  elem (state (Apply (Set_ m k v))) k = v.
Proof.
  intros Hne. unfold Set_. rewrite Hne.
  unfold elem. rewrite (Apply_staged_data _ k v); [done |]. apply set_index.
Qed.

(** What one [Set] on a new Mutation, applied, leaves under the key: the
    value itself, or the value the State held when that one is equal to it
    under [==]. *)
Lemma elem_Apply_Set_With (s : State) (k : string) (v : value) :
  elem (state (Apply (Set_ (With s) k v))) k = v ∨
  (elem (state (Apply (Set_ (With s) k v))) k = elem s k ∧
   iface_eq (elem s k) v = true).
Proof.
  destruct (iface_eq (elem s k) v) eqn:Heq.
  - right. split; [| done].
    rewrite Set_noop by done. apply elem_Apply_With.
  - left. by apply elem_Apply_Set_differs.
Qed.

(** X25: a value written by [Set] on a new Mutation and applied is read
    back by the accessor of its type, whatever the State held under the
    key: [Int] returns the integer, [Bool] the bool, [String] the string,
    and [Float] a float equal to the one written (the one written itself, or
    the one the State held when the two are equal as floats). *)
Theorem X25_typed_round_trip (s : State) (k : string) :
  (∀ i, (Int (state (Apply (Set_ (With s) k (VInt i)))) k).2 = Ok i) ∧
  (∀ b, (Bool (state (Apply (Set_ (With s) k (VBool b)))) k).2 = Ok b) ∧
  (∀ x, (String (state (Apply (Set_ (With s) k (VString x)))) k).2 = Ok x) ∧
  (∀ f, ∃ g, (Float (state (Apply (Set_ (With s) k (VFloat64 f)))) k).2 = Ok g ∧
             (g = f ∨ PrimFloat.eqb g f = true)).
Proof.
  assert (∀ v, is_float v = false →
               elem (state (Apply (Set_ (With s) k v))) k = v) as Hexact.
  { intros v Hv.
    destruct (elem_Apply_Set_With s k v) as [Hv' | [Hold Heq]]; [done |].
    rewrite Hold. by apply iface_eq_exact. }
  unfold Int, Bool, String, Float. cbn [snd].
  split; [| split; [| split]].
  - intros i. by rewrite elem_make_data, Hexact.
  - intros b. by rewrite elem_make_data, Hexact.
  - intros x. by rewrite elem_make_data, Hexact.
  - intros f. rewrite elem_make_data.
    destruct (elem_Apply_Set_With s k (VFloat64 f)) as [-> | [-> Heq]];
      [by eauto |].
    destruct (elem s k); try done. cbn in Heq. eauto.
Qed.

End Properties.

(** * The worked instance, evaluated *)

#[local] Existing Instance instance.

(** [temp] is the Metric of [cockpit]. *)
Lemma cockpit_metric : metrics cockpit !! "temp" = Some temp.
Proof. reflexivity. Defined.

Example cockpit_first_tick :
  let r := tick cockpit first_tick in
  (Int (s_state r.1) "temp").2 = Ok 42 ∧
  HasErrors (s_state r.1) = false ∧
  probe_calls r.2 = ["temp"] ∧
  listener_calls r.2 = [("ui", s_state r.1)] ∧
  save_calls r.2 = [("gockpit", "cockpit", Some {["temp" := VInt 42]}, None)].
Proof. vm_compute. repeat split. Qed.

(** ** Staged errors and [Apply] *)



(** ** The loop after [Stop] *)

(** C2: [Run], then [Stop], then the [select] takes the case of
    [ctx.Done()], then a tick arrives.  The goroutine has not returned: the
    tick runs the probe, the Listener and the sink. *)
Theorem C2_tick_runs_after_Stop :
  let l := Stop (Run cockpit false) in
  let r := goroutine
             [Select Done; Select (Tick first_tick)] l in
  ctx_done l = true ∧
  ready l Done = true ∧
  iteration l Done = (l, [], Continue) ∧
  r.2 = Continue ∧
  probe_calls r.1.2 = ["temp"] ∧
  listener_calls r.1.2 = [("ui", s_state (sup r.1.1))] ∧
  save_calls r.1.2 =
    [("gockpit", "cockpit", Some {["temp" := VInt 42]}, None)].
Proof. vm_compute. repeat split. Qed.

(** ** No-op suppression *)

(** C3 on a new Mutation of a State that holds 42 under "temp". *)
Lemma C3_set_same_value_is_noop_witness :
  elem (state (With live42)) "temp" = VInt 42 ∧
  iface_eq (VInt 42) (VInt 42) = true ∧
  Set_ (With live42) "temp" (VInt 42) = With live42 ∧
  (index (data (mutation (With live42))) "temp" = None →
   index (data (state (Apply (Set_ (With live42) "temp" (VInt 42)))))
     "temp"
   = index (data (state (With live42))) "temp").
Proof.
  split; [reflexivity |]. split; [reflexivity |].
  apply (C3_set_same_value_is_noop (With live42) "temp" (VInt 42));
    reflexivity.
Defined.

(** C3 as stated fails in two ways.  The live State holds 42 under "temp";
    a Mutation that has staged 7 for "temp" is told [Set("temp", 42)]: the
    call stages nothing, and [Apply] leaves 7 under "temp".  The live State
    holds a NaN under "temp"; a new Mutation told [Set] with the same NaN
    becomes dirty and stages it. *)
Lemma C3_counterexample :
  let m := Set_ (With live42) "temp" (VInt 7) in
  elem (state m) "temp" = VInt 42 ∧
  Set_ m "temp" (VInt 42) = m ∧
  index (data (state (Apply (Set_ m "temp" (VInt 42))))) "temp"
    = Some (VInt 7) ∧
  elem (state (With liveNaN)) "temp" = VFloat64 nan ∧
  dirty (Set_ (With liveNaN) "temp" (VFloat64 nan)) = true ∧
  index (data (mutation (Set_ (With liveNaN) "temp" (VFloat64 nan)))) "temp"
    = Some (VFloat64 nan).
Proof. vm_compute. repeat split. Qed.

(** ** Serialization *)

(** C4 on a State with a value and an error under "temp" and no alerts. *)
Lemma C4_MarshalJSON_members_witness :
  marshal_map marshal_value (data failing) = Some (JObject [("temp", JInt 42)]) ∧
  marshal_map marshal_Error (errors failing)
    = Some (JObject [("temp", JString "boom")]) ∧
  marshal_map marshal_Alert (alerts failing) = Some JNull ∧
  MarshalJSON failing =
  Some (JObject [("state", JObject [("temp", JInt 42)]);
                 ("errors", JObject [("temp", JString "boom")])]).
Proof.
  split; [reflexivity |]. split; [reflexivity |]. split; [reflexivity |].
  apply (C4_MarshalJSON_members failing
           (JObject [("temp", JInt 42)])
           (JObject [("temp", JString "boom")]) JNull); reflexivity.
Defined.

(** C4 as stated fails: the State of a new Supervisor serializes to an
    object whose only member is named "state", so it has no member "data";
    and a State that holds a NaN does not serialize at all. *)
Lemma C4_counterexample :
  MarshalJSON fresh
    = Some (JObject [("state", JObject [])]) ∧
  member "data" (JObject [("state", JObject [])]) = None ∧
  MarshalJSON liveNaN = None.
Proof. vm_compute. repeat split. Qed.

(** ** Scheduling, notification and persistence *)

(** C5 at the first tick of [cockpit]: the Metric "temp", never sampled
    and with an interval of ten seconds, is due, and the tick leaves the
    instant of the tick in its [lastUpdate]. *)
Lemma C5_due_iff_after_interval_witness :
  metrics cockpit !! "temp" = Some temp ∧
  metrics (tick cockpit first_tick).1 !! "temp" =
    Some {| name := "temp"; interval := 10 * Second; lastUpdate := first_tick;
            probe := probe temp |} ∧
  lastUpdate temp + interval temp < first_tick.
Proof.
  pose proof (C5_due_iff_after_interval cockpit first_tick "temp" temp
                cockpit_metric) as (_ & Hlast & Hzero).
  split; [exact cockpit_metric |]. split; [exact Hlast |].
  apply Hzero; [reflexivity | |].
  - unfold is_Duration, temp, Second. cbn [interval]. lia.
  - unfold first_tick, unixEpoch, Second. lia.
Defined.

(** C8 at the first tick of [cockpit], whose store is [sink]. *)
Lemma C8_save_once_per_tick_witness :
  store cockpit = Some sink ∧
  save_calls (tick cockpit first_tick).2 =
    [("gockpit", "cockpit",
      data (s_state (tick cockpit first_tick).1), None)].
Proof.
  split; [reflexivity |].
  exact (proj1 (C8_save_once_per_tick cockpit
                  first_tick sink eq_refl)).
Defined.

(** A sink that fails: the failure is logged, and the State after the tick
    is the one the working sink leaves. *)
Example broken_sink_tick :
  let r := tick (WithStore broken_sink cockpit) first_tick in
  logged r.2 = [("disk full", "could not save metrics state")] ∧
  s_state r.1 = s_state (tick cockpit first_tick).1.
Proof. vm_compute. repeat split. Qed.

(** ** Accessors *)

(** C9 on the State of a new Supervisor, which holds nothing under "temp". *)
Lemma C9_absent_key_zero_values_witness :
  index (data fresh) "temp" = None ∧
  (Int fresh "temp").2 = Ok 0 ∧
  (Float fresh "temp").2 = Ok 0%float ∧
  (Bool fresh "temp").2 = Ok false ∧
  (String fresh "temp").2 = Ok "".
Proof.
  split; [reflexivity |].
  apply (C9_absent_key_zero_values fresh "temp"). reflexivity.
Defined.

(** ** Further properties at the worked instance *)

(** [cockpit] after its first tick. *)
Definition rested : @Supervisor instance := (tick cockpit first_tick).1.

(** X3 on a new Mutation of [live42], after a call for another key. *)
Lemma X3_Set_then_Apply_reads_back_witness :
  iface_eq (elem (state (With live42)) "temp") (VInt 7) = false ∧
  dirty (Set_ (do_calls (With live42) [CallSet "rpm" (VInt 900)]) "temp" (VInt 7))
    = true ∧
  elem (state (Apply (Set_ (do_calls (With live42) [CallSet "rpm" (VInt 900)])
                        "temp" (VInt 7)))) "temp" = VInt 7.
Proof.
  split; [reflexivity |].
  pose proof (X3_Set_then_Apply_reads_back (With live42)
                [CallSet "rpm" (VInt 900)] "temp" (VInt 7) eq_refl)
    as (Hd & _ & Hv).
  split; [exact Hd | exact Hv].
Defined.

(** X4 on a Mutation of [live42] that has staged 7, told the live value. *)
Lemma X4_dirty_is_never_reset_witness :
  dirty (Set_ (With live42) "temp" (VInt 7)) = true ∧
  dirty (do_calls (Set_ (With live42) "temp" (VInt 7))
           [CallSet "temp" (VInt 42)]) = true.
Proof.
  split; [reflexivity |].
  exact (proj1 (X4_dirty_is_never_reset (Set_ (With live42) "temp" (VInt 7))
                  [CallSet "temp" (VInt 42)] eq_refl)).
Defined.

(** X5 on a Mutation of [live42] told what the State holds already. *)
Lemma X5_clean_Mutation_changes_nothing_witness :
  dirty (do_calls (With live42)
           [CallSet "temp" (VInt 42); CallSetError "temp" None]) = false ∧
  table (data (state (Apply (do_calls (With live42)
                               [CallSet "temp" (VInt 42);
                                CallSetError "temp" None]))))
    = table (data live42).
Proof.
  split; [reflexivity |].
  pose proof (X5_clean_Mutation_changes_nothing live42
                [CallSet "temp" (VInt 42); CallSetError "temp" None] eq_refl)
    as (_ & Hd & _).
  exact Hd.
Defined.

(** X6 on a Mutation of [failing], told the error it holds. *)
Lemma X6_SetError_same_error_is_noop_witness :
  index_Err (errors (state (With failing))) "temp" = Some "boom" ∧
  dirty (SetError (With failing) "temp" (Some "boom")) = false ∧
  mutation (SetError (With failing) "temp" (Some "boom")) = zero_State.
Proof.
  split; [reflexivity |].
  pose proof (X6_SetError_same_error_is_noop (With failing) "temp"
                (Some "boom") eq_refl) as (Hm & Hd & _).
  split; [exact Hd | exact Hm].
Defined.

(** X13 on [failing], which has an error and no alert. *)
Lemma X13_errors_member_iff_HasErrors_witness :
  MarshalJSON failing =
    Some (JObject [("state", JObject [("temp", JInt 42)]);
                   ("errors", JObject [("temp", JString "boom")])]) ∧
  (is_Some (member "errors"
              (JObject [("state", JObject [("temp", JInt 42)]);
                        ("errors", JObject [("temp", JString "boom")])]))
   ↔ HasErrors failing = true).
Proof.
  split; [reflexivity |].
  exact (proj1 (proj2 (X13_errors_member_iff_HasErrors failing _ eq_refl))).
Defined.

(** X15 on [cockpit]: a second probe under a new name. *)
Lemma X15_AddProbe_registers_fresh_Metric_witness :
  ∃ s', AddProbe cockpit "rpm" Second (IsProbe (λ _, [])) = Ok s' ∧
        metrics s' !! "rpm" =
          Some {| name := "rpm"; interval := Second; lastUpdate := 0;
                  probe := IsProbe (λ _, []) |} ∧
        metrics s' !! "temp" = Some temp.
Proof.
  destruct (proj2 (X15_AddProbe_registers_fresh_Metric cockpit "rpm" Second
                     (IsProbe (λ _, []))))
    as (s' & Hok & Hnew & Hold & _); [discriminate |].
  exists s'. split; [exact Hok |]. split; [exact Hnew |].
  rewrite Hold; [exact cockpit_metric | discriminate].
Defined.

(** X20 on [cockpit]: sampled at the first tick, "temp" rests at the tick
    ten seconds later. *)
Lemma X20_sampled_Metric_rests_witness :
  metrics cockpit !! "temp" = Some temp ∧
  lastUpdate temp + interval temp < first_tick ∧
  first_tick + 10 * Second ≤ first_tick + interval temp ∧
  metrics (tick (tick cockpit first_tick).1 (first_tick + 10 * Second)).1
    !! "temp" = Some (touched temp first_tick).
Proof.
  assert (lastUpdate temp + interval temp < first_tick) as Hdue.
  { unfold temp, first_tick, unixEpoch, Second. cbn [lastUpdate interval]. lia. }
  assert (first_tick + 10 * Second ≤ first_tick + interval temp) as Hrest.
  { unfold temp. cbn [interval]. lia. }
  split; [exact cockpit_metric |]. split; [exact Hdue |].
  split; [exact Hrest |].
  exact (proj1 (proj2 (X20_sampled_Metric_rests cockpit first_tick
                         (first_tick + 10 * Second) "temp" temp
                         cockpit_metric Hdue Hrest))).
Defined.

(** [rested] has the one Metric, sampled at the first tick. *)
Lemma rested_metrics : metrics rested = {["temp" := touched temp first_tick]}.
Proof. vm_compute. reflexivity. Defined.

(** X22 on [rested], one second after its first tick. *)
Lemma X22_idle_tick_witness :
  HasErrors (s_state rested) = false ∧
  probe_calls (tick rested (first_tick + Second)).2 = [] ∧
  listener_calls (tick rested (first_tick + Second)).2 = [] ∧
  metrics (tick rested (first_tick + Second)).1 = metrics rested.
Proof.
  split; [reflexivity |].
  assert (∀ key mg, metrics rested !! key = Some mg →
                    ¬ lastUpdate mg + interval mg < first_tick + Second)
    as Hidle.
  { intros key mg. rewrite rested_metrics. intros Hk.
    apply lookup_singleton_Some in Hk as [_ <-].
    unfold touched, temp, Second. cbn [lastUpdate interval]. lia. }
  pose proof (X22_idle_tick rested (first_tick + Second) Hidle eq_refl)
    as (_ & Hp & Hl & Hm & _).
  split; [exact Hp |]. split; [exact Hl | exact Hm].
Defined.
